(** * war_record: the record tables, the loaders, the summary and the search page

    A shallow embedding of the data handling of [card_tracker.py] (the
    landing page with its quick statistics) and of
    [pages/01_選手データ検索.py] (the player search page).

    Conventions of the embedding.
    - Text is a [string] holding the UTF-8 bytes of the Python [str].
    - A cell of a data frame is a string, an integer or a timestamp object;
      a missing cell (NaN / NaT) is the absence of the column's key in the
      row.  Floating-point cells other than NaN are outside the embedding,
      so a float64 column is a column without values; an integer that pandas
      takes into a float64 row reads with a decimal point.
    - [astype(str)] is the element-wise [str()] of pandas 1.x / 2.x object
      data: a missing cell becomes the three-letter text [nan].
    - The arithmetic of the win rate is IEEE binary64, as [SpecFloat] of the
      core library defines it; the number a binary64 value stands for is a
      rational.
    - [pd.to_datetime] is a parameter: a function of the whole column.
    - The widgets of the UI framework are inputs of the page function: the
      value a widget returns when it is rendered. *)

From Corelib Require Import SpecFloat.
From Stdlib Require Import QArith Qabs Lqa Ascii String.
From stdpp Require Import base option list strings pretty gmap fin_maps sorting.

Set Default Proof Using "Type".
Open Scope string_scope.
Open Scope list_scope.

(** ** Scalars, rows and data frames *)

Module Frame.

(** [pd.Timestamp], to the second. *)
Record Timestamp := mkTimestamp {
  ts_year : Z; ts_month : Z; ts_day : Z;
  ts_hour : Z; ts_minute : Z; ts_second : Z
}.

Inductive scalar :=
| SStr (s : string)
| SInt (z : Z)
| STs (t : Timestamp).

Inductive dtype := Dint64 | Dfloat64 | Dobject | Ddatetime64.

#[global] Instance Timestamp_eq_dec : EqDecision Timestamp.
Proof. solve_decision. Defined.
#[global] Instance scalar_eq_dec : EqDecision scalar.
Proof. solve_decision. Defined.
#[global] Instance dtype_eq_dec : EqDecision dtype.
Proof. solve_decision. Defined.

(** A row maps a column name to its cell; no entry means missing.  Column
    names are unique within a frame, as pandas makes them when it reads a
    sheet. *)
Abbreviation row := (gmap string scalar).

Record DataFrame := mkDataFrame {
  header : list (string * dtype);
  rows : list row
}.

(** [df.columns] *)
Definition columns (df : DataFrame) : list string := (header df).*1.

(** [pd.DataFrame()] *)
Definition empty_frame : DataFrame := mkDataFrame [] [].

(** [len(df)] *)
Definition len (df : DataFrame) : nat := length (rows df).

(** [df.empty]: some axis has length zero. *)
Definition is_empty (df : DataFrame) : bool :=
  bool_decide (header df = []) || bool_decide (rows df = []).

(** [col in df.columns] *)
Definition has_column (c : string) (df : DataFrame) : bool :=
  bool_decide (c ∈ columns df).

(** [df[col]], the cells of one column from top to bottom. *)
Definition column (df : DataFrame) (c : string) : list (option scalar) :=
  (λ r : row, r !! c) <$> rows df.

(** [s.dropna()] *)
Definition dropna (s : list (option scalar)) : list scalar := omap id s.

(** [s.unique()]: first occurrences, in order of appearance. *)
Fixpoint unique (l : list scalar) : list scalar :=
  match l with
  | [] => []
  | x :: l' => x :: filter (λ y, y ≠ x) (unique l')
  end.

End Frame.
Export Frame.


(** ** Text: [str()], padding, the pattern engine *)

Module Text.

(** The characters that need an escape inside a Rocq string. *)
Definition newline : ascii := "010"%char.
Definition carriage_return : ascii := "013"%char.
Definition dquote : ascii := "034"%char.

Definition str1 (c : ascii) : string := String c "".

(** [if s:] on a [str] *)
Definition truthy (s : string) : bool :=
  match s with "" => false | String _ _ => true end.

(** Zero padding of a non-negative number to [width] digits, as [%02d]. *)
Fixpoint zeros (n : nat) : string :=
  match n with O => "" | S n' => String "0" (zeros n') end.

Definition zero_pad (width : nat) (z : Z) : string :=
  let digits := pretty z in
  zeros (width - String.length digits) +:+ digits.

(** [str(pd.Timestamp)]: [YYYY-MM-DD HH:MM:SS]. *)
Definition timestamp_str (t : Timestamp) : string :=
  zero_pad 4 (ts_year t) +:+ "-" +:+ zero_pad 2 (ts_month t) +:+ "-" +:+
  zero_pad 2 (ts_day t) +:+ " " +:+ zero_pad 2 (ts_hour t) +:+ ":" +:+
  zero_pad 2 (ts_minute t) +:+ ":" +:+ zero_pad 2 (ts_second t).

(** [ts.strftime('%Y%m%d_%H%M%S')] *)
Definition strftime_stamp (t : Timestamp) : string :=
  zero_pad 4 (ts_year t) +:+ zero_pad 2 (ts_month t) +:+
  zero_pad 2 (ts_day t) +:+ "_" +:+ zero_pad 2 (ts_hour t) +:+
  zero_pad 2 (ts_minute t) +:+ zero_pad 2 (ts_second t).

(** Reading a decimal numeral back, as [int(s)] does for a string of
    digits. *)
Definition digit (c : ascii) : option Z :=
  let n := nat_of_ascii c in
  if (48 <=? n)%nat && (n <=? 57)%nat then Some (Z.of_nat (n - 48)) else None.

Definition numeral (s : string) : option Z :=
  foldl (λ acc c, a ← acc; d ← digit c; Some (10 * a + d)%Z) (Some 0%Z)
        (list_ascii_of_string s).

(** [str(x)] of one cell. *)
Definition scalar_str (x : scalar) : string :=
  match x with
  | SStr s => s
  | SInt z => pretty z
  | STs t => timestamp_str t
  end.

(** One element of [s.astype(str)]: a missing cell is the float NaN, whose
    [str()] is [nan]; the result holds no missing value any more. *)
Definition astype_str (x : option scalar) : string :=
  match x with
  | Some v => scalar_str v
  | None => "nan"
  end.

(** The order of [sorted] on [str]: by code point, which on UTF-8 text is
    the order of the bytes. *)
Definition str_le (a b : string) : Prop := String.leb a b = true.

#[global] Instance str_le_dec : RelDecision str_le.
Proof. intros a b. unfold str_le. apply _. Defined.

(** A compiled pattern as pandas uses it, [lambda x: regex.search(x) is not
    None].  The engine itself is Python's [re] module: [re.compile(pat,
    flags)] either raises [re.error] ([None]) or gives the search predicate.
    The flag is [re.IGNORECASE]. *)
Definition regex_engine : Type := string → bool → option (string → bool).

(** One element of [s.str.contains(pat, case=.., na=..)]: [na] is the answer
    for a missing element. *)
Definition str_contains (search : string → bool) (na : bool)
    (x : option string) : bool :=
  match x with
  | Some s => search s
  | None => na
  end.

End Text.
Export Text.

(** ** An engine for plain keywords

    The keywords made of ordinary characters and of the wildcard [.] are
    searched as Python's [re] does; a keyword with any other operator
    character is turned down by this engine. *)

Module PlainRe.

Inductive atom := Lit (c : ascii) | AnyChar.

Definition is_operator (c : ascii) : bool :=
  bool_decide (c ∈ list_ascii_of_string "\^$*+?{}[]|()").

Fixpoint parse (pat : string) : option (list atom) :=
  match pat with
  | "" => Some []
  | String c pat' =>
      if is_operator c then None
      else cons (if Ascii.eqb c "." then AnyChar else Lit c) <$> parse pat'
  end.

(** Case folding of the ASCII letters. *)
Definition lower (c : ascii) : ascii :=
  let n := nat_of_ascii c in
  if (65 <=? n)%nat && (n <=? 90)%nat then ascii_of_nat (n + 32) else c.

(** A continuation byte of a UTF-8 sequence. *)
Definition is_continuation (c : ascii) : bool :=
  let n := nat_of_ascii c in (128 <=? n)%nat && (n <? 192)%nat.

Fixpoint skip_continuation (s : string) : string :=
  match s with
  | String c s' => if is_continuation c then skip_continuation s' else s
  | "" => ""
  end.

Definition same_char (ignore_case : bool) (c d : ascii) : bool :=
  if ignore_case then Ascii.eqb (lower c) (lower d) else Ascii.eqb c d.

(** The pattern matches a prefix of [s]; the wildcard takes one whole
    character other than a newline. *)
Fixpoint match_here (ignore_case : bool) (p : list atom) (s : string) : bool :=
  match p with
  | [] => true
  | Lit c :: p' =>
      match s with
      | String d s' => same_char ignore_case c d && match_here ignore_case p' s'
      | "" => false
      end
  | AnyChar :: p' =>
      match s with
      | String d s' =>
          negb (Ascii.eqb d newline) &&
          match_here ignore_case p' (skip_continuation s')
      | "" => false
      end
  end.

Definition at_char_boundary (s : string) : bool :=
  match s with
  | String c _ => negb (is_continuation c)
  | "" => true
  end.

(** [regex.search(s) is not None]: a match starting at some character. *)
Fixpoint search (ignore_case : bool) (p : list atom) (s : string) : bool :=
  (at_char_boundary s && match_here ignore_case p s) ||
  match s with
  | String _ s' => search ignore_case p s'
  | "" => false
  end.

Definition engine : regex_engine :=
  λ pat ignore_case, search ignore_case <$> parse pat.

End PlainRe.

(** ** Effects: exceptions and the trace of outside calls *)

Module Effects.

Inductive exn :=
| StreamlitAPIException
| OtherException (name : string).

(** What the code does to the outside world, in order. *)
Inductive event :=
| SecretsLookup (key : string)
| ServiceAccountInfo
| ServiceAccountFile (path : string)
| Authorize
| OpenByKey (key : string)
| OpenWorksheet (name : string)
| GetAsDataframe
| StError (message : string) (cause : option exn).

(** A computation: the calls made so far and a raised exception or a value. *)
Definition M (A : Type) : Type := list event * (exn + A).

Definition ret {A} (a : A) : M A := ([], inr a).

Definition raise {A} (e : exn) : M A := ([], inl e).

Definition bind {A B} (m : M A) (f : A → M B) : M B :=
  match m with
  | (tr, inl e) => (tr, inl e)
  | (tr, inr a) => let (tr', r) := f a in (tr ++ tr', r)
  end.

(** An outside call: it is recorded and may raise. *)
Definition call {A} (ev : event) (answer : exn + A) : M A := ([ev], answer).

(** [st.error(message)] *)
Definition st_error (message : string) (cause : option exn) : M unit :=
  ([StError message cause], inr tt).

(** [try: m  except Exception as e: handler e] *)
Definition try_except {A} (m : M A) (handler : exn → M A) : M A :=
  match m with
  | (tr, inl e) => let (tr', r) := handler e in (tr ++ tr', r)
  | (tr, inr a) => (tr, inr a)
  end.

Definition trace {A} (m : M A) : list event := m.1.
Definition result {A} (m : M A) : exn + A := m.2.

(** The computation hands a value back to its caller. *)
Definition returns {A} (m : M A) (a : A) : Prop := result m = inr a.
(** The computation lets an exception out. *)
Definition raises {A} (m : M A) : Prop := ∃ e, result m = inl e.

(** The computation hands back a value that satisfies [P]. *)
Definition yields {A} (m : M A) (P : A → Prop) : Prop :=
  ∃ a, result m = inr a ∧ P a.

(** A call that fetches from the spreadsheet service. *)
Definition is_fetch (ev : event) : bool :=
  match ev with
  | Authorize | OpenByKey _ | OpenWorksheet _ | GetAsDataframe => true
  | _ => false
  end.

End Effects.
Export Effects.

#[global] Instance M_ret : MRet M := @ret.
#[global] Instance M_bind : MBind M := λ A B f m, bind m f.

(** ** The spreadsheet service as the code sees it *)

Module Sheets.

Inductive Credentials := ServiceAccount (client_email : string).

(** [get_as_dataframe(worksheet, ...)]: the table parsed from the sheet. *)
Definition Worksheet : Type := exn + DataFrame.
(** [spreadsheet.worksheet(name)] *)
Definition Spreadsheet : Type := string → exn + Worksheet.
(** [client.open_by_key(key)] *)
Definition Client : Type := string → exn + Spreadsheet.

Record Env := mkEnv {
  (** [hasattr(st, 'secrets')] *)
  has_secrets : bool;
  (** [key in st.secrets] *)
  secrets_contains : string → exn + bool;
  (** [Credentials.from_service_account_info(dict(st.secrets[..]), scopes)] *)
  from_service_account_info : exn + Credentials;
  (** [Credentials.from_service_account_file(path, scopes)] *)
  from_service_account_file : string → exn + Credentials;
  (** [gspread.authorize(creds)] *)
  authorize : Credentials → exn + Client
}.

End Sheets.
Export Sheets.

(** ** Operations on data frames shared by both pages *)

Module Ops.

(** [df[mask]] for a Boolean mask computed row by row. *)
Definition select_rows (mask : row → bool) (df : DataFrame) : DataFrame :=
  mkDataFrame (header df) (filter (λ r, mask r = true) (rows df)).

(** The cells of a row that lie in the listed columns. *)
Definition restrict (cols : list string) (r : row) : row :=
  filter (λ kv, kv.1 ∈ cols) r.

(** The dtype pandas keeps for a column. *)
Definition dtype_of (df : DataFrame) (c : string) : option dtype :=
  (λ found, found.2.2) <$> list_find (λ h, h.1 = c) (header df).

(** [df[cols]] for a list of column names: the listed columns that the frame
    has, in the order of the list. *)
Definition select_columns (cols : list string) (df : DataFrame) : DataFrame :=
  mkDataFrame
    (omap (λ c, pair c <$> dtype_of df c) cols)
    (restrict cols <$> rows df).

(** [df.dropna(how='all')]: a row stays when some column holds a value. *)
Definition dropna_all (df : DataFrame) : DataFrame :=
  select_rows (λ r, existsb (λ c, bool_decide (is_Some (r !! c))) (columns df)) df.

(** [df.loc[:, keep(df.columns)]] *)
Definition keep_columns (keep : string → bool) (df : DataFrame) : DataFrame :=
  mkDataFrame
    (filter (λ h, keep h.1 = true) (header df))
    ((λ r : row, filter (λ kv, keep kv.1 = true) r) <$> rows df).

(** [df[c] = values] with the new dtype [d], for a column the frame has: the
    cell of each row becomes the value at the position of the row, and
    missing where the values end. *)
Definition assign_column (c : string) (d : dtype)
    (values : list (option scalar)) (df : DataFrame) : DataFrame :=
  mkDataFrame
    ((λ h, if bool_decide (h.1 = c) then (c, d) else h) <$> header df)
    (imap (λ i (r : row), partial_alter (λ _, values !! i ≫= id) c r)
          (rows df)).

(** [df[c].nunique()] and [len(df[c].dropna().unique())] *)
Definition nunique (df : DataFrame) (c : string) : nat :=
  length (unique (dropna (column df c))).

(** [df[c].count()] *)
Definition count (df : DataFrame) (c : string) : nat :=
  length (dropna (column df c)).

End Ops.
Export Ops.

(** ** card_tracker.py *)

Module CardTracker.

Definition WORKSHEET_NAME : string := "シート1".

Definition COLUMNS : list string :=
  ["season"; "date"; "environment"; "my_deck"; "my_deck_type";
   "opponent_deck"; "opponent_deck_type"; "first_second"; "result";
   "finish_turn"; "memo"].

(** The token of a won match in the result column. *)
Definition WIN : string := "勝ち".

(** [get_gspread_client] of this page: credentials come from the secrets
    only.  The memoisation of [st.cache_resource] is left out: this is the
    call that fills the cache. *)
Definition get_gspread_client (env : Env) : M (option Client) :=
  use_streamlit_secrets ←
    (if has_secrets env then
       try_except
         (call (SecretsLookup "gcp_service_account")
               (secrets_contains env "gcp_service_account"))
         (λ e, match e with
               | StreamlitAPIException => mret false
               | _ => raise e
               end)
     else mret false);
  if use_streamlit_secrets : bool then
    creds ← call ServiceAccountInfo (from_service_account_info env);
    try_except
      (client ← call Authorize (authorize env creds); mret (Some client))
      (λ e, st_error "Google Sheets接続エラー" (Some e);; mret None)
  else mret None.

Section Loader.

(** [pd.to_datetime(s, errors='coerce')] on the cells of a column from top
    to bottom: for each cell the timestamp, or nothing (NaT) when the cell is
    missing or is not read as a date.  It is a function of the whole column,
    not of the cell: from pandas 2.0 on the format is taken from the first
    date of the column and every other cell is held to it. *)
Variable to_datetime : list (option scalar) → list (option Timestamp).

(** [pd.to_datetime(df['date'], errors='coerce')], as cells. *)
Definition coerce_datetime (df : DataFrame) : list (option scalar) :=
  (λ t : option Timestamp, STs <$> t) <$> to_datetime (column df "date").

(** The part of [load_summary_data] after the sheet was fetched. *)
Definition normalize (df : DataFrame) : DataFrame :=
  if is_empty df then empty_frame
  else
    let needed_cols := filter (λ c, c ∈ columns df) COLUMNS in
    let df := select_columns needed_cols df in
    if has_column "date" df
    then assign_column "date" Ddatetime64 (coerce_datetime df) df
    else df.

(** [load_summary_data], with the module constant [SPREADSHEET_ID] as read
    from the secrets ([None] when not configured). *)
Definition load_summary_data (SPREADSHEET_ID : option string) (env : Env)
    : M DataFrame :=
  if negb (from_option truthy false SPREADSHEET_ID) then mret empty_frame
  else
    client ← get_gspread_client env;
    match client with
    | None => mret empty_frame
    | Some client =>
        try_except
          (spreadsheet ← call (OpenByKey (default "" SPREADSHEET_ID))
                              (client (default "" SPREADSHEET_ID));
           worksheet ← call (OpenWorksheet WORKSHEET_NAME)
                            (spreadsheet WORKSHEET_NAME);
           df ← call GetAsDataframe worksheet;
           mret (normalize df))
          (λ _, mret empty_frame)
    end.

End Loader.

(** [len(df[df['result'] == '勝ち'])] *)
Definition wins (df : DataFrame) : nat :=
  len (select_rows (λ r, bool_decide (r !! "result" = Some (SStr WIN))) df).

(** An [int] as an operand of [/]: the integer itself, as a significand
    with exponent 0. *)
Definition int_operand (n : nat) : spec_float :=
  match n with
  | O => S754_zero false
  | S _ => S754_finite false (Pos.of_nat n) 0
  end.

(** [a / b] on two [int]s, for a divisor other than 0: the quotient of the
    integers rounded to the nearest binary64 number, ties to even.  [SFdiv]
    divides the significands to more than 53 bits and rounds once. *)
Definition true_divide (a b : nat) : spec_float :=
  SFdiv 53 1024 (int_operand a) (int_operand b).

(** [float(100)], the operand [100] of the product with a [float]. *)
Definition hundred : spec_float := binary_normalize 53 1024 100 0 false.

(** [(wins / len(df) * 100) if len(df) > 0 else 0], in IEEE binary64 as
    Python evaluates it: the quotient rounded to nearest, then its product
    with 100.0 rounded to nearest. *)
Definition win_rate (df : DataFrame) : spec_float :=
  if (0 <? len df)%nat
  then SFmul 53 1024 (true_divide (wins df) (len df)) hundred
  else S754_zero false.

(** The rational number a finite binary64 value stands for. *)
Definition binary64_value (x : spec_float) : Q :=
  match x with
  | S754_finite s m e =>
      (if s then -1 else 1) * (Z.pos m # 1) *
      (if (0 <=? e)%Z then 2 ^ e # 1 else 1 # Z.to_pos (2 ^ (- e)))
  | _ => 0
  end.

(** Rounding to the nearest integer, ties to even. *)
Definition round_half_even (x : Q) : Z :=
  let d := Z.pos (Qden x) in
  let q := (Qnum x / d)%Z in
  match (2 * (Qnum x mod d) ?= d)%Z with
  | Lt => q
  | Gt => (q + 1)%Z
  | Eq => if Z.even q then q else (q + 1)%Z
  end.

(** [f"{x:.1f}"]: the decimal with one digit after the point that is
    nearest to the exact value of [x], ties to the even digit. *)
Definition format_1f (x : Q) : string :=
  let tenths := round_half_even (Qabs x * 10) in
  (if Qlt_le_dec x 0 then "-" else "") +:+
  pretty (tenths / 10)%Z +:+ "." +:+ pretty (tenths mod 10)%Z.

Inductive metric_value := Number (n : nat) | Label (s : string).

Record quick_stats := mkQuickStats {
  total_matches : metric_value;
  win_count : metric_value;
  win_rate_label : metric_value;
  season_count : metric_value
}.

Inductive summary :=
| Metrics (q : quick_stats)
| NoRecordsYet
| Preparing.

(** The four metrics shown for a frame that is not empty. *)
Definition metrics (df : DataFrame) : quick_stats :=
  {| total_matches := Number (len df);
     win_count :=
       if has_column "result" df then Number (wins df) else Label "N/A";
     win_rate_label :=
       if has_column "result" df
       then Label (format_1f (binary64_value (win_rate df)) +:+ "%")
       else Label "N/A";
     season_count :=
       if has_column "season" df then Number (nunique df "season")
       else Label "N/A" |}.

(** The quick statistics block at the end of the module. *)
Definition quick_statistics
    (to_datetime : list (option scalar) → list (option Timestamp))
    (SPREADSHEET_ID : option string) (env : Env) : M summary :=
  try_except
    (df ← load_summary_data to_datetime SPREADSHEET_ID env;
     mret (if negb (is_empty df) then Metrics (metrics df) else NoRecordsYet))
    (λ _, mret Preparing).

End CardTracker.

(** ** pages/01_選手データ検索.py *)

Module PlayerSearch.

Definition PLAYER_SPREADSHEET_ID : string := "".
Definition PLAYER_WORKSHEET_NAME : string := "シート1".

(** [get_gspread_client] of the search page: the secrets first, the local
    credential file otherwise.  The memoisation of [st.cache_resource] is
    left out: this is the call that fills the cache. *)
Definition get_gspread_client (env : Env) : M (option Client) :=
  use_streamlit_secrets ←
    (if has_secrets env then
       try_except
         (call (SecretsLookup "gcp_service_account")
               (secrets_contains env "gcp_service_account"))
         (λ e, match e with
               | StreamlitAPIException => mret false
               | _ => raise e
               end)
     else mret false);
  creds ←
    (if use_streamlit_secrets : bool then
       c ← call ServiceAccountInfo (from_service_account_info env);
       mret (Some c)
     else
       try_except
         (c ← call (ServiceAccountFile "service_account.json")
                   (from_service_account_file env "service_account.json");
          mret (Some c))
         (λ e, st_error "サービスアカウントの認証情報ファイル (service_account.json) の読み込みに失敗しました"
                        (Some e);;
               mret None));
  match creds with
  | None => mret None
  | Some creds =>
      try_except
        (client ← call Authorize (authorize env creds); mret (Some client))
        (λ e, st_error "Google Sheetsへの接続に失敗しました" (Some e);; mret None)
  end.

(** A column name that matches the pattern [^Unnamed]. *)
Definition unnamed (c : string) : bool := String.prefix "Unnamed" c.

(** The part of [load_player_data] after the sheet was fetched. *)
Definition normalize (df : DataFrame) : DataFrame :=
  let df := dropna_all df in
  keep_columns (λ c, negb (unnamed c)) df.

(** [load_player_data]; the five-minute memoisation of [st.cache_data] is
    left out: this is the call that fills the cache. *)
Definition load_player_data (spreadsheet_id worksheet_name : string) (env : Env)
    : M DataFrame :=
  if negb (truthy spreadsheet_id) then mret empty_frame
  else
    client ← get_gspread_client env;
    match client with
    | None =>
        st_error "Google Sheetsに接続できませんでした。" None;;
        mret empty_frame
    | Some client =>
        try_except
          (spreadsheet ← call (OpenByKey spreadsheet_id) (client spreadsheet_id);
           worksheet ← call (OpenWorksheet worksheet_name)
                            (spreadsheet worksheet_name);
           df ← call GetAsDataframe worksheet;
           mret (normalize df))
          (λ e, st_error "データの読み込みに失敗しました" (Some e);;
                mret empty_frame)
    end.

(** *** The widgets *)

Inductive search_method := KeywordSearch | ColumnFilter.

(** What the widgets hand to one run of the page.  A multiselect only
    returns entries of its options. *)
Record ui_input := mkInput {
  (** the radio button *)
  method : search_method;
  (** the keyword box *)
  search_term : string;
  (** the multiselect [filter_<col>] of each column *)
  selected : string → list string;
  (** the multiselect of the columns to show *)
  display_columns : list string;
  (** [pd.Timestamp.now()] *)
  now : Timestamp
}.

Record multiselect := mkMultiselect {
  ms_label : string;
  ms_options : list string;
  ms_key : string
}.

(** *** Filtering *)

(** The two frames the filtering code works on, and the facets put into the
    side bar. *)
Record locals := mkLocals {
  df : DataFrame;
  filtered_df : DataFrame;
  sidebar : list multiselect
}.

(** The dtype of a row that [df.apply(axis=1)] hands over as one Series:
    the common type of the columns.  Integer columns next to a float64
    column (in this embedding: a column without any value) make a float64
    row; a text column makes an object row, in which every cell keeps its
    own type.  The frames of this page hold no timestamps. *)
Definition row_dtype (d : DataFrame) : dtype :=
  let dtypes := (header d).*2 in
  if forallb (λ t, bool_decide (t = Dint64)) dtypes then Dint64
  else if forallb (λ t, bool_decide (t = Dint64 ∨ t = Dfloat64)) dtypes
  then Dfloat64
  else Dobject.

(** [str(float(z))] for an integer that binary64 holds exactly and that is
    written without an exponent ([|z| < 2^53]). *)
Definition float_str (z : Z) : string := pretty z +:+ ".0".

(** One element of [row.astype(str)]: the text of a cell within its row. *)
Definition row_astype_str (d : DataFrame) (r : row) (c : string) : string :=
  match row_dtype d, r !! c with
  | Dfloat64, Some (SInt z) => float_str z
  | _, x => astype_str x
  end.

(** [row.astype(str).str.contains(term, case=False, na=False).any()] *)
Definition row_matches (search : string → bool) (d : DataFrame) (r : row)
    : bool :=
  existsb (λ c, str_contains search false (Some (row_astype_str d r c)))
          (columns d).

(** The keyword branch.  [df.apply] compiles the pattern when it visits the
    first row, so a frame without rows never sees a pattern error. *)
Definition keyword_search (engine : regex_engine) (term : string) (l : locals)
    : exn + locals :=
  if truthy term then
    if bool_decide (rows (df l) = []) then inr l
    else
      match engine term true with
      | None => inl (OtherException "re.error")
      | Some search =>
          let mask := row_matches search (df l) in
          inr (mkLocals (df l) (select_rows mask (df l)) (sidebar l))
      end
  else inr l.

(** [df[col].dropna().unique()] *)
Definition unique_values (d : DataFrame) (col : string) : list scalar :=
  unique (dropna (column d col)).

(** [len(unique_values) > 0 and len(unique_values) <= 50] *)
Definition facet_offered (d : DataFrame) (col : string) : bool :=
  let n := length (unique_values d col) in
  (0 <? n)%nat && (n <=? 50)%nat.

(** [sorted(unique_values.astype(str))] *)
Definition facet_options (d : DataFrame) (col : string) : list string :=
  merge_sort str_le ((λ v, astype_str (Some v)) <$> unique_values d col).

(** [s.isin(values)] on one element *)
Definition isin (values : list string) (x : string) : bool :=
  bool_decide (x ∈ values).

(** One round of the loop over [df.columns]. *)
Definition facet_step (sel : string → list string) (l : locals) (col : string)
    : locals :=
  if facet_offered (df l) col then
    let widget := mkMultiselect col (facet_options (df l) col) ("filter_" +:+ col) in
    let selected_values := sel col in
    mkLocals (df l)
      (match selected_values with
       | [] => filtered_df l
       | _ :: _ =>
           select_rows (λ r, isin selected_values (astype_str (r !! col)))
                       (filtered_df l)
       end)
      (sidebar l ++ [widget])
  else l.

(** The column branch. *)
Definition column_filter (sel : string → list string) (l : locals) : locals :=
  foldl (facet_step sel) l (columns (df l)).

(** Lines 135 to 167: [filtered_df = df.copy()] and the chosen branch. *)
Definition filter_rows (engine : regex_engine) (inp : ui_input)
    (loaded : DataFrame) : exn + locals :=
  let l := mkLocals loaded loaded [] in
  match method inp with
  | KeywordSearch => keyword_search engine (search_term inp) l
  | ColumnFilter => inr (column_filter (selected inp) l)
  end.

(** *** [describe()]

    The rows [count], [mean], [min], [max] of a numeric column and [count],
    [unique], [freq] of any other column; [std], the quartiles and [top]
    are floating-point or order-of-hashing results and are left out. *)

Inductive column_summary :=
| NumericSummary (count : nat) (mean : option Q) (min max : option Z)
| ObjectSummary (count : nat) (unique : nat) (freq : option nat).

Definition default_described (d : dtype) : bool :=
  match d with Dint64 | Dfloat64 | Ddatetime64 => true | Dobject => false end.

Definition numbers (cells : list scalar) : list Z :=
  omap (λ v, match v with SInt z => Some z | _ => None end) cells.

Definition minimum (l : list Z) : option Z :=
  match l with [] => None | z :: l' => Some (foldr Z.min z l') end.

Definition maximum (l : list Z) : option Z :=
  match l with [] => None | z :: l' => Some (foldr Z.max z l') end.

Definition numeric_summary (cells : list scalar) : column_summary :=
  let zs := numbers cells in
  NumericSummary (length cells)
    (match zs with
     | [] => None
     | _ :: _ => Some (Qred (foldr Z.add 0%Z zs # Pos.of_nat (length zs)))
     end)
    (minimum zs) (maximum zs).

Definition occurrences (cells : list scalar) (v : scalar) : nat :=
  length (filter (λ w, w = v) cells).

Definition object_summary (cells : list scalar) : column_summary :=
  let values := unique cells in
  ObjectSummary (length cells) (length values)
    (match values with
     | [] => None
     | _ :: _ => Some (foldr Nat.max 0%nat (occurrences cells <$> values))
     end).

(** [d.describe()] with its default choice of columns: the numeric (and
    datetime) ones when there are any, all columns otherwise. *)
Definition describe (d : DataFrame) : list (string * column_summary) :=
  let summary h :=
    let cells := dropna (column d h.1) in
    (h.1, if default_described h.2 then numeric_summary cells
          else object_summary cells) in
  match filter (λ h, default_described h.2 = true) (header d) with
  | [] => summary <$> header d
  | described => summary <$> described
  end.

(** *** The column list of the whole data set *)

Definition dtype_str (d : dtype) : string :=
  match d with
  | Dint64 => "int64"
  | Dfloat64 => "float64"
  | Dobject => "object"
  | Ddatetime64 => "datetime64[ns]"
  end.

Record column_info := mkColumnInfo {
  ci_name : string;        (* 列名 *)
  ci_dtype : string;       (* データ型 *)
  ci_non_missing : nat;    (* 非欠損値数 *)
  ci_unique : nat          (* ユニーク値数 *)
}.

Definition col_info (d : DataFrame) : list column_info :=
  (λ h, mkColumnInfo h.1 (dtype_str h.2) (count d h.1) (nunique d h.1))
    <$> header d.

(** *** [to_csv(index=False)]

    The writer is Python's [csv] module as pandas sets it up: comma, double
    quote, minimal quoting, a line feed after each record; a missing cell is
    written as the empty field. *)

(** Minimal quoting: a field is quoted when it holds the delimiter, the
    quote character or a character of the line terminator.  With the line
    feed as terminator a carriage return alone does not call for quotes
    (the writer of Python 3.12 and earlier). *)
Definition needs_quotes (field : string) : bool :=
  existsb (λ c, bool_decide (c ∈ ["," % char; dquote; newline]))
          (list_ascii_of_string field).

Fixpoint double_quotes (field : string) : string :=
  match field with
  | "" => ""
  | String c rest =>
      if Ascii.eqb c dquote then String dquote (String dquote (double_quotes rest))
      else String c (double_quotes rest)
  end.

Definition csv_field (field : string) : string :=
  if needs_quotes field
  then str1 dquote +:+ double_quotes field +:+ str1 dquote
  else field.

Fixpoint join (sep : string) (l : list string) : string :=
  match l with
  | [] => ""
  | [x] => x
  | x :: l' => x +:+ sep +:+ join sep l'
  end.

(** One record; a record made of a single empty field is written quoted. *)
Definition csv_record (fields : list string) : string :=
  match fields with
  | [""] => str1 dquote +:+ str1 dquote
  | _ => join "," (csv_field <$> fields)
  end +:+ str1 newline.

Definition csv_cell (x : option scalar) : string :=
  match x with
  | Some v => scalar_str v
  | None => ""
  end.

Definition csv_row (cols : list string) (r : row) : string :=
  csv_record ((λ c, csv_cell (r !! c)) <$> cols).

Definition to_csv (d : DataFrame) : string :=
  csv_record (columns d) +:+
  foldr (λ r rest, csv_row (columns d) r +:+ rest) "" (rows d).

(** *** The page *)

Record download := mkDownload {
  dl_data : string;
  dl_file_name : string;
  dl_mime : string
}.

Inductive results :=
| Shown (table : DataFrame) (export : download)
        (statistics : list (string * column_summary))
| SelectColumnWarning
| NoMatchInfo.

Record page := mkPage {
  pg_loaded : nat;
  pg_sidebar : list multiselect;
  pg_found : nat;
  pg_results : results;
  pg_col_info : list column_info
}.

Inductive screen :=
| NoDataWarning
| Page (p : page).

(** Lines 172 to 215, the result area. *)
Definition results_area (inp : ui_input) (l : locals) : results :=
  if negb (is_empty (filtered_df l)) then
    match display_columns inp with
    | _ :: _ =>
        let shown := select_columns (display_columns inp) (filtered_df l) in
        Shown shown
          (mkDownload (to_csv shown)
             ("player_data_" +:+ strftime_stamp (now inp) +:+ ".csv")
             "text/csv")
          (describe shown)
    | [] => SelectColumnWarning
    end
  else NoMatchInfo.

(** [main] from the loaded frame on (lines 119 to 226), in a run in which
    the reset button is not pressed. *)
Definition main (engine : regex_engine) (inp : ui_input) (loaded : DataFrame)
    : exn + screen :=
  if is_empty loaded then inr NoDataWarning
  else
    match filter_rows engine inp loaded with
    | inl e => inl e
    | inr l =>
        inr (Page (mkPage (len (df l)) (sidebar l) (len (filtered_df l))
                          (results_area inp l) (col_info (df l))))
    end.

End PlayerSearch.

(** ** The claims' own words, for comparison with the code *)

Module Spec.
Import PlayerSearch.

(** A facet with at least one selected value accepts the row: the row's
    value in that column, as a string, is among the selected values. *)
Definition facet_accepts (sel : string → list string) (T : DataFrame)
    (r : row) (col : string) : Prop :=
  facet_offered T col = true → sel col ≠ [] → astype_str (r !! col) ∈ sel col.

(** The row passes every facet. *)
Definition passes_facets (sel : string → list string) (T : DataFrame)
    (r : row) : Prop :=
  Forall (facet_accepts sel T r) (columns T).

#[global] Instance facet_accepts_dec sel T r col :
  Decision (facet_accepts sel T r col).
Proof. unfold facet_accepts. apply _. Defined.

#[global] Instance passes_facets_dec sel T r : Decision (passes_facets sel T r).
Proof. unfold passes_facets. apply _. Defined.

(** [n] is the number of distinct non-missing values of the column: the
    length of a duplicate-free list of exactly those values. *)
Definition distinct_values (T : DataFrame) (col : string) (n : nat) : Prop :=
  ∃ vs : list scalar,
    NoDup vs ∧ (∀ v, v ∈ vs ↔ Some v ∈ column T col) ∧ length vs = n.

(** The row holds a value in some column of the table. *)
Definition has_value (T : DataFrame) (r : row) : Prop :=
  Exists (λ c, is_Some (r !! c)) (columns T).

(** [r'] is [r] without its cells under unnamed columns; every other cell,
    a date included, is as it was. *)
Definition without_unnamed (r r' : row) : Prop :=
  ∀ c, r' !! c = if unnamed c then None else r !! c.

(** [r'] is the row [r] at position [i] of the table, cut down to the
    expected columns the table has, with its date cell replaced by what the
    date column of the table reads as at that position: a timestamp, or
    missing. *)
Definition summary_row
    (to_datetime : list (option scalar) → list (option Timestamp))
    (T : DataFrame) (i : nat) (r r' : row) : Prop :=
  ∀ c, r' !! c =
       if decide (c ∈ CardTracker.COLUMNS ∧ c ∈ columns T) then
         if decide (c = "date")
         then STs <$> (to_datetime (column T "date") !! i ≫= id)
         else r !! c
       else None.

(** The bytes of a text that lie outside ASCII, in order: the UTF-8
    sequences of its non-ASCII characters. *)
Fixpoint non_ascii (s : string) : list ascii :=
  match s with
  | "" => []
  | String c s' =>
      if (nat_of_ascii c <? 128)%nat then non_ascii s' else c :: non_ascii s'
  end.

(** The non-ASCII bytes of a table shown with the listed columns: those of
    the column names, then those of the cells, row by row. *)
Definition non_ascii_of_table (T : DataFrame) : list ascii :=
  concat (non_ascii <$> columns T) ++
  concat ((λ r : row,
             concat ((λ c, non_ascii (csv_cell (r !! c))) <$> columns T))
          <$> rows T).

(** The credentials step of [get_gspread_client] goes through: the secrets
    are not there, or the look into them fails the framework's way or does
    not find the service account, or the service account found there yields
    credentials. *)
Definition credentials_settled (env : Env) : Prop :=
  has_secrets env = false ∨
  secrets_contains env "gcp_service_account" = inl StreamlitAPIException ∨
  secrets_contains env "gcp_service_account" = inr false ∨
  secrets_contains env "gcp_service_account" = inr true ∧
  ∃ creds, from_service_account_info env = inr creds.

(** A reading of the clock as [pd.Timestamp.now()] gives it. *)
Definition clock_reading (t : Timestamp) : Prop :=
  (1677 ≤ ts_year t ≤ 2262 ∧ 1 ≤ ts_month t ≤ 12 ∧ 1 ≤ ts_day t ≤ 31 ∧
   0 ≤ ts_hour t ≤ 23 ∧ 0 ≤ ts_minute t ≤ 59 ∧ 0 ≤ ts_second t ≤ 59)%Z.

(** The number of rows whose result cell is the given token. *)
Definition rows_with_result (token : string) (T : DataFrame) : nat :=
  count_occ (decide_rel (=)) (column T "result") (Some (SStr token)).

(** The significand of a rounding step with its round and sticky bits, at
    the exponent [e ≤ 0], stands for a number that does not exceed the
    integer [c]. *)
Definition below (c : Z) (mrs : shr_record) (e : Z) : Prop :=
  (0 ≤ shr_m mrs ∧
   (shr_m mrs < c * 2 ^ (- e) ∨
    (shr_m mrs = c * 2 ^ (- e) ∧ shr_r mrs = false ∧ shr_s mrs = false)))%Z.

(** A binary64 number given by its significand (0 for zero) and exponent. *)
Definition of_parts (m e : Z) : spec_float :=
  match m with
  | Z.pos p => S754_finite false p e
  | _ => S754_zero false
  end.

(** A binary64 number between 0 and the integer [c]. *)
Definition within (c : Z) (x : spec_float) : Prop :=
  x = S754_zero false ∨
  ∃ m e, x = S754_finite false m e ∧ (e ≤ 0)%Z ∧ (Z.pos m ≤ c * 2 ^ (- e))%Z.

End Spec.

(** ** Example tables and inputs *)

Module Examples.
Import PlayerSearch.

Definition noon : Timestamp := mkTimestamp 2025 4 1 12 0 0.

Definition red : row := {["deck" := SStr "Red"]}.
Definition blue : row := {["deck" := SStr "Blue"]}.

(** The rows [{deck: Red}, {deck: Blue}, {deck: Red}]. *)
Definition decks : DataFrame :=
  mkDataFrame [("deck", Dobject)] [red; blue; red].

Definition no_selection : string → list string := λ _, [].

(** The selection [{deck: {Red}}]. *)
Definition select_red : string → list string :=
  λ col, if bool_decide (col = "deck") then ["Red"] else [].

Definition by_keyword (term : string) (shown : list string) : ui_input :=
  mkInput KeywordSearch term no_selection shown noon.

Definition by_columns (sel : string → list string) (shown : list string)
    : ui_input :=
  mkInput ColumnFilter "" sel shown noon.

(** A roster with a player whose team is not filled in, and a row that lost
    its only value with an unnamed column. *)
Definition sato : row := {["name" := SStr "Sato"]}.
Definition tanaka : row := {["name" := SStr "Tanaka"; "team" := SStr "xAbcx"]}.
Definition blank : row := ∅.

Definition roster : DataFrame :=
  mkDataFrame [("name", Dobject); ("team", Dobject)] [sato; tanaka; blank].

(** The three matches [勝ち], [負け], [勝ち]. *)
Definition matches : DataFrame :=
  mkDataFrame [("result", Dobject)]
    [ {["result" := SStr "勝ち"]}; {["result" := SStr "負け"]};
      {["result" := SStr "勝ち"]} ].

(** A stand-in for [pd.to_datetime(s, errors='coerce')] in the examples,
    for columns of texts that are dates written [YYYY-MM-DD] or
    [YYYY/MM/DD] or no dates at all.  As pandas does from version 2.0 on, it
    takes the format from the first text of the column and holds every cell
    to it; when the first text shows no format, each cell is read on its
    own. *)
Inductive date_format := Dashes | Slashes.

Definition date_separator (f : date_format) : ascii :=
  match f with Dashes => "-"%char | Slashes => "/"%char end.

Definition strptime (f : date_format) (s : string) : option Timestamp :=
  match list_ascii_of_string s with
  | [y1; y2; y3; y4; s1; m1; m2; s2; d1; d2] =>
      if Ascii.eqb s1 (date_separator f) && Ascii.eqb s2 (date_separator f)
      then
        y ← numeral (string_of_list_ascii [y1; y2; y3; y4]);
        m ← numeral (string_of_list_ascii [m1; m2]);
        d ← numeral (string_of_list_ascii [d1; d2]);
        if bool_decide (1 ≤ m ≤ 12 ∧ 1 ≤ d ≤ 31)%Z
        then Some (mkTimestamp y m d 0 0 0) else None
      else None
  | _ => None
  end.

Definition guess_format (s : string) : option date_format :=
  head (filter (λ f, is_Some (strptime f s)) [Dashes; Slashes]).

Definition first_text (s : list (option scalar)) : option string :=
  head (omap (λ x, match x with Some (SStr t) => Some t | _ => None end) s).

Definition read_date (formats : list date_format) (x : option scalar)
    : option Timestamp :=
  match x with
  | Some (STs t) => Some t
  | Some (SStr s) => head (omap (λ f, strptime f s) formats)
  | _ => None
  end.

Definition iso_date (s : list (option scalar)) : list (option Timestamp) :=
  match first_text s ≫= guess_format with
  | Some f => read_date [f] <$> s
  | None => read_date [Dashes; Slashes] <$> s
  end.

(** A sheet of match records as the service hands it over, without empty
    lines: a won match, a line whose only value stands under a column the
    landing page does not know, a lost match whose date cannot be read, and
    a drawn match whose date is written in another format than the first. *)
Definition won : row :=
  {["season" := SStr "S1"; "date" := SStr "2025-04-01"; "result" := SStr "勝ち"]}.
Definition remark : row := {["remark" := SStr "rain"]}.
Definition lost : row :=
  {["season" := SStr "S1"; "date" := SStr "someday"; "result" := SStr "負け"]}.
Definition drawn : row :=
  {["season" := SStr "S1"; "date" := SStr "2025/04/02"; "result" := SStr "引き分け"]}.

Definition match_sheet : DataFrame :=
  mkDataFrame [("season", Dobject); ("date", Dobject); ("result", Dobject);
               ("remark", Dobject)]
              [won; remark; lost; drawn].

(** A sheet of players as the service hands it over: a player, and a line
    whose only value stands under a column without a name. *)
Definition player : row := {["name" := SStr "Sato"; "date" := SStr "someday"]}.
Definition stray : row := {["Unnamed: 2" := SStr "memo"]}.

Definition player_sheet : DataFrame :=
  mkDataFrame [("name", Dobject); ("date", Dobject); ("Unnamed: 2", Dobject)]
              [player; stray].


(** The service in good order: the secrets hold a service account, and every
    key and worksheet name leads to the table [T]. *)
Definition account : Credentials := ServiceAccount "bot@example.iam".

Definition serving (T : DataFrame) : Env :=
  mkEnv true (λ _, inr true) (inr account)
        (λ _, inl (OtherException "FileNotFoundError"))
        (λ _, inr (λ _, inr (λ _, inr (inr T)))).

(** The secrets hold a service account entry that is not a complete key
    file: building the credentials from it raises. *)
Definition malformed_secrets (T : DataFrame) : Env :=
  mkEnv true (λ _, inr true) (inl (OtherException "ValueError"))
        (λ _, inl (OtherException "FileNotFoundError"))
        (λ _, inr (λ _, inr (λ _, inr (inr T)))).

End Examples.

(** ** Splitting delimited text

    The format [to_csv] writes (comma, double quote with doubling, a line
    feed after each record) taken apart again, as a state machine over the
    characters of the text.  The page has no such reader; it serves to show
    that the text of an export is not ambiguous.  A line feed at the start
    of a record gives the record without fields. *)

Module Reader.

Inductive state :=
| RecordStart
| FieldStart
| Unquoted
| Quoted
| QuoteInQuoted.

(** [read st field record done s]: [done] holds the finished records,
    [record] the finished fields of the current record, [field] the text
    of the current field, all in reading order. *)
Fixpoint read (st : state) (field : string) (record : list string)
    (done : list (list string)) (s : string) : list (list string) :=
  match s with
  | "" =>
      match st with
      | RecordStart => done
      | _ => done ++ [record ++ [field]]
      end
  | String c s' =>
      match st with
      | RecordStart =>
          if Ascii.eqb c newline then read RecordStart "" [] (done ++ [[]]) s'
          else if Ascii.eqb c "," then read FieldStart "" [""] done s'
          else if Ascii.eqb c dquote then read Quoted "" [] done s'
          else read Unquoted (str1 c) [] done s'
      | FieldStart =>
          if Ascii.eqb c newline
          then read RecordStart "" [] (done ++ [record ++ [""]]) s'
          else if Ascii.eqb c "," then read FieldStart "" (record ++ [""]) done s'
          else if Ascii.eqb c dquote then read Quoted "" record done s'
          else read Unquoted (str1 c) record done s'
      | Unquoted =>
          if Ascii.eqb c newline
          then read RecordStart "" [] (done ++ [record ++ [field]]) s'
          else if Ascii.eqb c ","
          then read FieldStart "" (record ++ [field]) done s'
          else read Unquoted (field +:+ str1 c) record done s'
      | Quoted =>
          if Ascii.eqb c dquote then read QuoteInQuoted field record done s'
          else read Quoted (field +:+ str1 c) record done s'
      | QuoteInQuoted =>
          if Ascii.eqb c dquote
          then read Quoted (field +:+ str1 c) record done s'
          else if Ascii.eqb c newline
          then read RecordStart "" [] (done ++ [record ++ [field]]) s'
          else if Ascii.eqb c ","
          then read FieldStart "" (record ++ [field]) done s'
          else read Unquoted (field +:+ str1 c) record done s'
      end
  end.

(** The state in which a field starts, after the fields read so far. *)
Definition field_start (record : list string) : state :=
  match record with [] => RecordStart | _ :: _ => FieldStart end.

Definition read_csv (s : string) : list (list string) :=
  read RecordStart "" [] [] s.

(** The records a frame stands for: the column names, then the text of the
    cells of each row, a missing cell being the empty text. *)
Definition records (d : DataFrame) : list (list string) :=
  columns d ::
  ((λ r : row, (λ c, PlayerSearch.csv_cell (r !! c)) <$> columns d) <$> rows d).

End Reader.

(** * Properties of the search page's filter *)

Section Filter.
Import PlayerSearch Spec.

Variable engine : regex_engine.

Lemma select_rows_header mask d : header (select_rows mask d) = header d.
Proof. reflexivity. Qed.

Lemma select_rows_sublist mask d : rows (select_rows mask d) `sublist_of` rows d.
Proof. apply sublist_filter. Qed.

(** The keyword branch keeps the loaded frame and the side bar as they are. *)
Lemma keyword_search_frames term l l' :
  keyword_search engine term l = inr l' →
  df l' = df l ∧ sidebar l' = sidebar l ∧
  header (filtered_df l') = header (filtered_df l) ∨
  df l' = df l ∧ sidebar l' = sidebar l ∧
  header (filtered_df l') = header (df l).
Proof.
  unfold keyword_search. intros H.
  destruct (truthy term); [|left; by simplify_eq].
  case_bool_decide; [left; by simplify_eq|].
  destruct (engine term true); simplify_eq. by right.
Qed.

Lemma filter_all {A} (P : A → Prop) `{!∀ x, Decision (P x)} (l : list A) :
  (∀ x, P x) → filter P l = l.
Proof.
  intros HP. induction l as [|x l IH]; [done|].
  rewrite filter_cons_True; [by f_equal|apply HP].
Qed.

(** One round of the loop over the columns. *)
Lemma facet_step_spec sel l col :
  df (facet_step sel l col) = df l ∧
  header (filtered_df (facet_step sel l col)) = header (filtered_df l) ∧
  rows (filtered_df (facet_step sel l col)) =
    filter (λ r, facet_accepts sel (df l) r col) (rows (filtered_df l)) ∧
  sidebar (facet_step sel l col) =
    sidebar l ++
    (if facet_offered (df l) col
     then [mkMultiselect col (facet_options (df l) col) ("filter_" +:+ col)]
     else []).
Proof.
  unfold facet_step.
  destruct (facet_offered (df l) col) eqn:Hoff; simpl.
  - destruct (sel col) as [|v vs] eqn:Hsel; simpl; (split_and!; [done|done| |done]).
    + symmetry. apply filter_all. intros r _ Hne. by rewrite Hsel in Hne.
    + apply list_filter_iff. intros r. unfold isin, facet_accepts.
      rewrite bool_decide_eq_true, Hsel. split; [auto|].
      intros Hacc. by apply Hacc.
  - split_and!; try done; [|by rewrite app_nil_r].
    symmetry. apply filter_all. intros r Hon. congruence.
Qed.

(** The whole loop, from any state. *)
Lemma column_loop_spec sel cols l :
  let l' := foldl (facet_step sel) l cols in
  df l' = df l ∧
  header (filtered_df l') = header (filtered_df l) ∧
  rows (filtered_df l') =
    filter (λ r, Forall (facet_accepts sel (df l) r) cols) (rows (filtered_df l)) ∧
  sidebar l' =
    sidebar l ++
    ((λ col, mkMultiselect col (facet_options (df l) col) ("filter_" +:+ col))
       <$> filter (λ col, facet_offered (df l) col = true) cols).
Proof.
  revert l. induction cols as [|col cols IH]; intros l; simpl.
  - split_and!; try done; [|by rewrite app_nil_r].
    symmetry. apply filter_all. constructor.
  - destruct (IH (facet_step sel l col)) as (Hdf & Hhd & Hrows & Hside).
    destruct (facet_step_spec sel l col) as (Hdf1 & Hhd1 & Hrows1 & Hside1).
    rewrite Hdf1 in Hdf, Hrows, Hside.
    split_and!.
    + congruence.
    + congruence.
    + rewrite Hrows, Hrows1, list_filter_filter.
      apply list_filter_iff. intros r. rewrite Forall_cons. tauto.
    + rewrite Hside, Hside1, <-(assoc_L (++)). f_equal.
      rewrite filter_cons.
      destruct (facet_offered (df l) col); by case_decide.
Qed.

Lemma frame_eta d : mkDataFrame (header d) (rows d) = d.
Proof. by destruct d. Qed.

Lemma frame_eq d1 d2 : header d1 = header d2 → rows d1 = rows d2 → d1 = d2.
Proof. destruct d1, d2; simpl; congruence. Qed.

Lemma NoDup_unique l : NoDup (unique l).
Proof.
  induction l as [|x l IH]; simpl; [constructor|].
  constructor; [|by apply NoDup_filter].
  rewrite list_elem_of_filter. by intros [Hne _].
Qed.

Lemma elem_of_unique l v : v ∈ unique l ↔ v ∈ l.
Proof.
  induction l as [|x l IH]; simpl; [done|].
  rewrite !elem_of_cons, list_elem_of_filter, IH.
  destruct (decide (v = x)) as [->|Hne]; [tauto|]. tauto.
Qed.

Lemma elem_of_dropna s v : v ∈ dropna s ↔ Some v ∈ s.
Proof.
  unfold dropna. rewrite list_elem_of_omap. split.
  - intros (x & Hx & Hid). simpl in Hid. by subst x.
  - intros Hv. by exists (Some v).
Qed.

(** The code's count of distinct values is the number the claims speak of. *)
Lemma distinct_values_unique T col n :
  distinct_values T col n ↔ n = length (unique_values T col).
Proof.
  unfold distinct_values, unique_values. split.
  - intros (vs & Hnd & Hin & <-). apply Permutation_length.
    apply NoDup_Permutation; [done|apply NoDup_unique|].
    intros v. by rewrite Hin, elem_of_unique, elem_of_dropna.
  - intros ->. eexists. split_and!; [apply NoDup_unique| |done].
    intros v. by rewrite elem_of_unique, elem_of_dropna.
Qed.

Lemma facet_offered_distinct T col :
  facet_offered T col = true ↔ ∃ n, distinct_values T col n ∧ (1 ≤ n ≤ 50)%nat.
Proof.
  unfold facet_offered. rewrite andb_true_iff, Nat.ltb_lt, Nat.leb_le. split.
  - intros [? ?]. exists (length (unique_values T col)).
    rewrite distinct_values_unique. lia.
  - intros (n & ->%distinct_values_unique & ?). lia.
Qed.

(** The column branch started on a loaded frame. *)
Lemma column_filter_spec sel T :
  let l := column_filter sel (mkLocals T T []) in
  df l = T ∧
  header (filtered_df l) = header T ∧
  rows (filtered_df l) = filter (passes_facets sel T) (rows T) ∧
  ms_label <$> sidebar l = filter (λ col, facet_offered T col = true) (columns T).
Proof.
  destruct (column_loop_spec sel (columns T) (mkLocals T T []))
    as (Hdf & Hhd & Hrows & Hside).
  simpl in *. unfold column_filter. simpl. split_and!; try done.
  rewrite Hside, <-list_fmap_compose. simpl. apply list_fmap_id.
Qed.

(** C4. Identity laws of the filter: with the empty keyword the filtered
    table is the loaded table itself, and so it is in the column mode when
    no offered facet has a selected value. *)
Theorem filter_identity (inp : ui_input) (T : DataFrame) :
  (method inp = KeywordSearch ∧ search_term inp = "" ∨
   method inp = ColumnFilter ∧
   ∀ col, facet_offered T col = true → selected inp col = []) →
  ∃ l, filter_rows engine inp T = inr l ∧ filtered_df l = T.
Proof.
  unfold filter_rows. intros [[-> Hterm]|[-> Hsel]].
  - unfold keyword_search. rewrite Hterm. simpl. by eexists.
  - eexists. split; [done|].
    destruct (column_filter_spec (selected inp) T) as (_ & Hhd & Hrows & _).
    apply frame_eq; [done|]. rewrite Hrows. apply filter_all.
    intros r. apply Forall_forall. intros col _ Hoff Hne.
    by destruct Hne; apply Hsel.
Qed.

(** C6. Facet mode: the filtered table holds, in their order, exactly the
    rows that every facet with a selected value accepts; selecting Red in
    the deck facet of [Red; Blue; Red] leaves the two Red rows. *)
Theorem facet_filter_semantics (inp : ui_input) (T : DataFrame) :
  method inp = ColumnFilter →
  (∃ l, filter_rows engine inp T = inr l ∧
        header (filtered_df l) = header T ∧
        rows (filtered_df l) = filter (passes_facets (selected inp) T) (rows T)) ∧
  (∀ r, passes_facets (selected inp) T r ↔
        ∀ col, col ∈ columns T → facet_offered T col = true →
               selected inp col ≠ [] →
               astype_str (r !! col) ∈ selected inp col) ∧
  (∃ l, filter_rows engine (Examples.by_columns Examples.select_red ["deck"])
                    Examples.decks = inr l ∧
        rows (filtered_df l) = [Examples.red; Examples.red]).
Proof.
  intros Hm. split_and!.
  - unfold filter_rows. rewrite Hm. eexists. split; [done|].
    by destruct (column_filter_spec (selected inp) T) as (_ & ? & ? & _).
  - intros r. unfold passes_facets. rewrite Forall_forall. done.
  - eexists. split; [reflexivity|]. vm_compute. reflexivity.
Qed.

(** C8. Facet eligibility: in the column mode a column gets a multiselect
    exactly when the number of its distinct non-missing values lies between
    1 and 50; with none, or with more than 50, it gets none. *)
Theorem facet_eligibility (inp : ui_input) (T : DataFrame) (col : string) :
  method inp = ColumnFilter →
  ∃ l, filter_rows engine inp T = inr l ∧
       (col ∈ ms_label <$> sidebar l ↔
        col ∈ columns T ∧ ∃ n, distinct_values T col n ∧ (1 ≤ n ≤ 50)%nat) ∧
       (∀ n, distinct_values T col n → (n = 0 ∨ 50 < n)%nat →
             col ∉ ms_label <$> sidebar l).
Proof.
  intros Hm. unfold filter_rows. rewrite Hm. eexists. split; [done|].
  destruct (column_filter_spec (selected inp) T) as (_ & _ & _ & ->).
  split.
  - rewrite list_elem_of_filter, facet_offered_distinct. tauto.
  - intros n Hn Hout [[m [Hm' ?]]%facet_offered_distinct _]%list_elem_of_filter.
    apply distinct_values_unique in Hn, Hm'. lia.
Qed.

(** The two ways the filtering code can end. *)
Lemma filter_rows_outcome (inp : ui_input) (T : DataFrame) :
  match filter_rows engine inp T with
  | inr l =>
      df l = T ∧
      header (filtered_df l) = header T ∧
      rows (filtered_df l) `sublist_of` rows T
  | inl _ =>
      method inp = KeywordSearch ∧ search_term inp ≠ "" ∧ rows T ≠ [] ∧
      engine (search_term inp) true = None
  end.
Proof.
  unfold filter_rows. destruct (method inp).
  - unfold keyword_search. simpl.
    destruct (search_term inp) as [|c term] eqn:Hterm; simpl; [done|].
    case_bool_decide; [done|].
    destruct (engine _ true) eqn:Heng; simpl; [|done].
    split_and!; try done. apply sublist_filter.
  - destruct (column_filter_spec (selected inp) T) as (? & ? & Hrows & _).
    split_and!; try done. rewrite Hrows. apply sublist_filter.
Qed.

(** C10. Whatever the filter, the code either stops on a keyword the
    pattern engine turns down, or ends with the loaded table as it was and
    with a filtered table of the same columns whose rows are a subsequence
    of the loaded rows: each is a row of the loaded table, in the loaded
    order, no more often than there. *)
Theorem filter_subsequence (inp : ui_input) (T : DataFrame) :
  match filter_rows engine inp T with
  | inr l =>
      df l = T ∧
      header (filtered_df l) = header T ∧
      rows (filtered_df l) `sublist_of` rows T ∧
      (∀ r, r ∈ rows (filtered_df l) → r ∈ rows T)
  | inl _ =>
      method inp = KeywordSearch ∧ search_term inp ≠ "" ∧ rows T ≠ [] ∧
      engine (search_term inp) true = None
  end.
Proof.
  pose proof (filter_rows_outcome inp T) as H.
  destruct (filter_rows engine inp T) as [e|l]; [done|].
  destruct H as (Hdf & Hhd & Hsub). split_and!; try done.
  intros r Hr. by eapply elem_of_sublist.
Qed.

End Filter.

(** C4, at the deck table: the empty keyword, and the column mode with
    nothing selected. *)
Lemma filter_identity_witness :
  (∃ l, PlayerSearch.filter_rows PlainRe.engine
          (Examples.by_keyword "" ["deck"]) Examples.decks = inr l ∧
        PlayerSearch.filtered_df l = Examples.decks) ∧
  (∃ l, PlayerSearch.filter_rows PlainRe.engine
          (Examples.by_columns Examples.no_selection ["deck"]) Examples.decks
        = inr l ∧
        PlayerSearch.filtered_df l = Examples.decks).
Proof.
  split; apply filter_identity.
  - left. split; reflexivity.
  - right. split; [reflexivity|]. intros col _. reflexivity.
Defined.

(** C6, at the deck table with Red selected. *)
Lemma facet_filter_semantics_witness :
  ∃ l, PlayerSearch.filter_rows PlainRe.engine
         (Examples.by_columns Examples.select_red ["deck"]) Examples.decks
       = inr l ∧
       header (PlayerSearch.filtered_df l) = header Examples.decks ∧
       rows (PlayerSearch.filtered_df l) =
         filter (Spec.passes_facets Examples.select_red Examples.decks)
                (rows Examples.decks).
Proof.
  apply (facet_filter_semantics PlainRe.engine
           (Examples.by_columns Examples.select_red ["deck"]) Examples.decks).
  reflexivity.
Defined.

(** C8, at the deck column of the deck table, which has two distinct
    values. *)
Lemma facet_eligibility_witness :
  ∃ l, PlayerSearch.filter_rows PlainRe.engine
         (Examples.by_columns Examples.no_selection ["deck"]) Examples.decks
       = inr l ∧
       ("deck" ∈ PlayerSearch.ms_label <$> PlayerSearch.sidebar l ↔
        "deck" ∈ columns Examples.decks ∧
        ∃ n, Spec.distinct_values Examples.decks "deck" n ∧ (1 ≤ n ≤ 50)%nat) ∧
       (∀ n, Spec.distinct_values Examples.decks "deck" n →
             (n = 0 ∨ 50 < n)%nat →
             "deck" ∉ PlayerSearch.ms_label <$> PlayerSearch.sidebar l).
Proof.
  apply (facet_eligibility PlainRe.engine
           (Examples.by_columns Examples.no_selection ["deck"]) Examples.decks).
  reflexivity.
Defined.

(** * The keyword search on missing cells and on pattern characters *)

(** C1. The keyword [nan] finds the rows with a missing cell, the one
    without any value included, though no cell holds that text: [astype(str)]
    has turned the missing cells into the text [nan] before [na=False] could
    apply.  The keyword [.] finds every row, though no cell holds a full
    stop: the keyword is read as a pattern.  The keywords [ABC] and [abc]
    both find the row with the cell [xAbcx]. *)
Theorem keyword_search_missing_and_pattern :
  (∃ l, PlayerSearch.filter_rows PlainRe.engine
          (Examples.by_keyword "nan" ["name"; "team"]) Examples.roster = inr l ∧
        rows (PlayerSearch.filtered_df l) = [Examples.sato; Examples.blank]) ∧
  (∀ col, Examples.blank !! col = None) ∧
  (∃ l, PlayerSearch.filter_rows PlainRe.engine
          (Examples.by_keyword "." ["name"; "team"]) Examples.roster = inr l ∧
        rows (PlayerSearch.filtered_df l) =
          [Examples.sato; Examples.tanaka; Examples.blank]) ∧
  (∃ l, PlayerSearch.filter_rows PlainRe.engine
          (Examples.by_keyword "ABC" ["name"; "team"]) Examples.roster = inr l ∧
        rows (PlayerSearch.filtered_df l) = [Examples.tanaka]) ∧
  (∃ l, PlayerSearch.filter_rows PlainRe.engine
          (Examples.by_keyword "abc" ["name"; "team"]) Examples.roster = inr l ∧
        rows (PlayerSearch.filtered_df l) = [Examples.tanaka]).
Proof.
  split_and!; try (eexists; split; [reflexivity|]; vm_compute; reflexivity).
  intros col. apply lookup_empty.
Qed.

(** * Properties of the page: statistics, column list, export *)

Section Page.
Import PlayerSearch.

Variable engine : regex_engine.

(** A run that shows the page has a loaded frame with rows and columns, and
    its filter ended without an exception. *)
Lemma main_page inp T p :
  main engine inp T = inr (Page p) →
  is_empty T = false ∧
  ∃ l, filter_rows engine inp T = inr l ∧
       df l = T ∧
       header (filtered_df l) = header T ∧
       p = mkPage (len T) (sidebar l) (len (filtered_df l))
                  (results_area inp l) (col_info T).
Proof.
  unfold main. intros H.
  destruct (is_empty T) eqn:Hemp; [done|]. split; [done|].
  pose proof (filter_rows_outcome engine inp T) as Hsub.
  destruct (filter_rows engine inp T) as [e|l]; [done|].
  destruct Hsub as (Hdf & Hhd & _). rewrite Hdf in H.
  exists l. split_and!; try done. by simplify_eq.
Qed.

Lemma is_empty_false d :
  is_empty d = false ↔ header d ≠ [] ∧ rows d ≠ [].
Proof.
  unfold is_empty. rewrite orb_false_iff, !bool_decide_eq_false. done.
Qed.

(** C2, as the code has it. The column list is computed from the loaded
    table whatever the filter; the statistics are those of the filtered
    table cut down to the columns chosen for display. *)
Theorem column_info_of_loaded_statistics_of_filtered
    (inp : ui_input) (T : DataFrame) (p : page) :
  main engine inp T = inr (Page p) →
  pg_col_info p = col_info T ∧
  (∀ inp' p', main engine inp' T = inr (Page p') →
              pg_col_info p' = pg_col_info p) ∧
  ∃ l, filter_rows engine inp T = inr l ∧
       ∀ table export stats,
         pg_results p = Shown table export stats →
         table = select_columns (display_columns inp) (filtered_df l) ∧
         stats = describe table.
Proof.
  intros (_ & l & Hl & _ & _ & ->)%main_page. simpl. split_and!; [done| |].
  - by intros inp' p' (_ & l' & _ & _ & _ & ->)%main_page.
  - exists l. split; [done|]. unfold results_area.
    intros table export stats.
    destruct (is_empty (filtered_df l)); simpl; [done|].
    destruct (display_columns inp); [done|]. by intros [= <- _ <-].
Qed.

Lemma string_app_inj (a1 a2 b1 b2 : string) :
  String.length a1 = String.length a2 →
  a1 +:+ b1 = a2 +:+ b2 → a1 = a2 ∧ b1 = b2.
Proof.
  revert a2. induction a1 as [|c a1 IH]; intros [|d a2] Hlen Happ;
    simpl in *; try done.
  injection Happ as -> Happ. destruct (IH a2) as [-> ->]; auto.
Qed.

Lemma string_length_app (a b : string) :
  String.length (a +:+ b) = (String.length a + String.length b)%nat.
Proof. induction a; simpl; auto. Qed.

Lemma str_app_cons (x : ascii) (a b : string) :
  String x a +:+ b = String x (a +:+ b).
Proof. reflexivity. Qed.

Lemma str_app_assoc (a b c : string) : (a +:+ b) +:+ c = a +:+ (b +:+ c).
Proof.
  induction a as [|x a IH]; [done|]. by rewrite !str_app_cons, IH.
Qed.

Lemma str_app_sep (a b c : string) (x : ascii) :
  (a +:+ str1 x +:+ b) +:+ c = a +:+ String x (b +:+ c).
Proof. rewrite !str_app_assoc. reflexivity. Qed.

Lemma str_app_end (a c : string) (x : ascii) :
  (a +:+ str1 x) +:+ c = a +:+ String x c.
Proof. rewrite str_app_assoc. reflexivity. Qed.

Lemma str_app_nil_r (a : string) : a +:+ "" = a.
Proof. induction a as [|x a IH]; [done|]. by rewrite str_app_cons, IH. Qed.

(** Two digits for the fields below 100, four for the years of a
    timestamp; the number can be read back. *)
Lemma zero_pad_2 z :
  (0 ≤ z ≤ 99)%Z →
  String.length (zero_pad 2 z) = 2%nat ∧ numeral (zero_pad 2 z) = Some z.
Proof.
  intros Hz.
  assert (Forall (λ z, String.length (zero_pad 2 z) = 2%nat ∧
                       numeral (zero_pad 2 z) = Some z) (seqZ 0 100)) as Hall.
  { apply (bool_decide_unpack _). vm_compute. exact I. }
  rewrite Forall_forall in Hall. apply Hall. apply elem_of_seqZ. lia.
Qed.

Lemma zero_pad_4 z :
  (1677 ≤ z ≤ 2262)%Z →
  String.length (zero_pad 4 z) = 4%nat ∧ numeral (zero_pad 4 z) = Some z.
Proof.
  intros Hz.
  assert (Forall (λ z, String.length (zero_pad 4 z) = 4%nat ∧
                       numeral (zero_pad 4 z) = Some z) (seqZ 1677 586))
    as Hall.
  { apply (bool_decide_unpack _). vm_compute. exact I. }
  rewrite Forall_forall in Hall. apply Hall. apply elem_of_seqZ. lia.
Qed.

Lemma zero_pad_inj w z1 z2 :
  numeral (zero_pad w z1) = Some z1 → numeral (zero_pad w z2) = Some z2 →
  zero_pad w z1 = zero_pad w z2 → z1 = z2.
Proof. intros H1 H2 Heq. rewrite Heq in H1. congruence. Qed.

(** The stamp of the file name tells the readings of the clock apart to
    the second. *)
Lemma strftime_stamp_inj t1 t2 :
  Spec.clock_reading t1 → Spec.clock_reading t2 →
  strftime_stamp t1 = strftime_stamp t2 → t1 = t2.
Proof.
  destruct t1 as [y1 m1 d1 H1 M1 S1], t2 as [y2 m2 d2 H2 M2 S2].
  unfold Spec.clock_reading, strftime_stamp. simpl.
  intros (Hy1 & Hm1 & Hd1 & HH1 & HM1 & HS1) (Hy2 & Hm2 & Hd2 & HH2 & HM2 & HS2).
  destruct (zero_pad_4 y1) as [Ly1 Ny1]; [lia|].
  destruct (zero_pad_4 y2) as [Ly2 Ny2]; [lia|].
  destruct (zero_pad_2 m1) as [Lm1 Nm1]; [lia|].
  destruct (zero_pad_2 m2) as [Lm2 Nm2]; [lia|].
  destruct (zero_pad_2 d1) as [Ld1 Nd1]; [lia|].
  destruct (zero_pad_2 d2) as [Ld2 Nd2]; [lia|].
  destruct (zero_pad_2 H1) as [LH1 NH1]; [lia|].
  destruct (zero_pad_2 H2) as [LH2 NH2]; [lia|].
  destruct (zero_pad_2 M1) as [LM1 NM1]; [lia|].
  destruct (zero_pad_2 M2) as [LM2 NM2]; [lia|].
  destruct (zero_pad_2 S1) as [LS1 NS1]; [lia|].
  destruct (zero_pad_2 S2) as [LS2 NS2]; [lia|].
  intros [Ey E]%string_app_inj; [|congruence].
  apply string_app_inj in E as [Em E]; [|congruence].
  apply string_app_inj in E as [Ed E]; [|congruence].
  apply string_app_inj in E as [_ E]; [|done].
  apply string_app_inj in E as [EH E]; [|congruence].
  apply string_app_inj in E as [EM ES]; [|congruence].
  f_equal; by eapply zero_pad_inj.
Qed.

Lemma non_ascii_app a b :
  Spec.non_ascii (a +:+ b) = Spec.non_ascii a ++ Spec.non_ascii b.
Proof.
  induction a as [|c a IH]; [done|]. simpl.
  destruct (nat_of_ascii c <? 128)%nat; simpl; by rewrite IH.
Qed.

Lemma non_ascii_double_quotes s :
  Spec.non_ascii (double_quotes s) = Spec.non_ascii s.
Proof.
  induction s as [|c s IH]; [done|]. simpl.
  destruct (Ascii.eqb c dquote) eqn:Hc; simpl.
  - apply Ascii.eqb_eq in Hc as ->. simpl. exact IH.
  - destruct (nat_of_ascii c <? 128)%nat; by rewrite IH.
Qed.

Lemma non_ascii_csv_field s : Spec.non_ascii (csv_field s) = Spec.non_ascii s.
Proof.
  unfold csv_field. destruct (needs_quotes s); [|done].
  rewrite !non_ascii_app, non_ascii_double_quotes. simpl.
  by rewrite app_nil_r.
Qed.

Lemma non_ascii_join fields :
  Spec.non_ascii (join "," (csv_field <$> fields)) =
  concat (Spec.non_ascii <$> fields).
Proof.
  induction fields as [|f fields IH]; [done|].
  destruct fields as [|g fields].
  - simpl. by rewrite non_ascii_csv_field, app_nil_r.
  - change (join "," (csv_field <$> f :: g :: fields))
      with (csv_field f +:+ "," +:+ join "," (csv_field <$> g :: fields)).
    rewrite !non_ascii_app, IH, non_ascii_csv_field. done.
Qed.

Lemma non_ascii_csv_record fields :
  Spec.non_ascii (csv_record fields) = concat (Spec.non_ascii <$> fields).
Proof.
  unfold csv_record. rewrite non_ascii_app. simpl. rewrite app_nil_r.
  destruct fields as [|f fields]; [done|].
  destruct f as [|c f]; [destruct fields as [|g fields]; [done|]|];
    apply non_ascii_join.
Qed.

(** A carriage return alone in a cell is written as it is, without
    quotes. *)
Lemma csv_field_carriage_return (a b : string) :
  needs_quotes a = false → needs_quotes b = false →
  csv_field (a +:+ str1 carriage_return +:+ b)
  = a +:+ str1 carriage_return +:+ b.
Proof.
  intros Ha Hb. unfold csv_field.
  assert (needs_quotes (a +:+ str1 carriage_return +:+ b) = false) as ->; [|done].
  unfold needs_quotes in *.
  induction a as [|c a IH]; simpl in *; [done|].
  apply orb_false_iff in Ha as [-> Ha]. simpl. by apply IH.
Qed.

(** The text of the export holds the non-ASCII bytes of the table, and no
    others. *)
Lemma to_csv_non_ascii d :
  Spec.non_ascii (to_csv d) = Spec.non_ascii_of_table d.
Proof.
  unfold to_csv, Spec.non_ascii_of_table.
  rewrite non_ascii_app, non_ascii_csv_record. f_equal.
  induction (rows d) as [|r rs IH]; [done|]. simpl.
  rewrite non_ascii_app, IH. f_equal. unfold csv_row.
  by rewrite non_ascii_csv_record, <-list_fmap_compose.
Qed.

(** C9, as the code has it. A loaded table without rows or without
    columns gives the no-data warning and nothing else.  For any other loaded
    table the search raises, or the page is shown, and then: when the search
    found rows, with no column chosen the result area is the warning and
    nothing else, and with a column chosen it holds the download, whose text
    starts with the record of the column names and whose name carries the
    time of the run to the second; when the search found nothing the result
    area is the note that nothing matched, whatever the columns. *)
Theorem export_refused_without_columns (inp : ui_input) (T : DataFrame) :
  (is_empty T = true → main engine inp T = inr NoDataWarning) ∧
  (is_empty T = false →
   (∃ e, filter_rows engine inp T = inl e ∧ main engine inp T = inl e) ∨
   ∃ l p,
     filter_rows engine inp T = inr l ∧
     main engine inp T = inr (Page p) ∧
     pg_found p = len (filtered_df l) ∧
     (pg_found p ≠ 0%nat → display_columns inp = [] →
      pg_results p = SelectColumnWarning) ∧
     (pg_found p ≠ 0%nat → display_columns inp ≠ [] →
      ∃ table body,
        table = select_columns (display_columns inp) (filtered_df l) ∧
        to_csv table = csv_record (columns table) +:+ body ∧
        Spec.non_ascii (to_csv table) = Spec.non_ascii_of_table table ∧
        pg_results p =
          Shown table
            (mkDownload (to_csv table)
               ("player_data_" +:+ strftime_stamp (now inp) +:+ ".csv")
               "text/csv")
            (describe table)) ∧
     (pg_found p = 0%nat → pg_results p = NoMatchInfo)) ∧
  (∀ inp', Spec.clock_reading (now inp) → Spec.clock_reading (now inp') →
           strftime_stamp (now inp) = strftime_stamp (now inp') →
           now inp = now inp').
Proof.
  split_and!.
  - unfold main. by intros ->.
  - intros HT. unfold main. rewrite HT.
    pose proof (filter_rows_outcome engine inp T) as Hsub.
    destruct (filter_rows engine inp T) as [e|l]; [left; by exists e|right].
    destruct Hsub as (Hdf & Hhd & _).
    apply is_empty_false in HT as [HhT _].
    assert (is_empty (filtered_df l) = bool_decide (len (filtered_df l) = 0%nat))
      as Hemp.
    { unfold is_empty, len. rewrite Hhd, (bool_decide_eq_false_2 _ HhT). simpl.
      apply bool_decide_ext. by rewrite length_zero_iff_nil. }
    eexists l, _. split; [done|]. split; [done|]. simpl.
    unfold results_area. rewrite Hemp. split_and!.
    + done.
    + intros Hn ->. by rewrite bool_decide_eq_false_2.
    + intros Hn Hcols. rewrite bool_decide_eq_false_2 by done. simpl.
      destruct (display_columns inp) as [|c cs] eqn:Hdisp; [done|].
      eexists _, _. split_and!; try done. apply to_csv_non_ascii.
    + intros ->. by rewrite bool_decide_eq_true_2.
  - intros inp'. apply strftime_stamp_inj.
Qed.

End Page.

(** C2, at the deck table with Red selected. *)
Lemma column_info_of_loaded_statistics_of_filtered_witness :
  ∃ p, PlayerSearch.main PlainRe.engine
         (Examples.by_columns Examples.select_red ["deck"]) Examples.decks
       = inr (PlayerSearch.Page p) ∧
       PlayerSearch.pg_col_info p = PlayerSearch.col_info Examples.decks.
Proof.
  eexists. split; [reflexivity|].
  apply (column_info_of_loaded_statistics_of_filtered PlainRe.engine
           (Examples.by_columns Examples.select_red ["deck"]) Examples.decks).
  reflexivity.
Defined.

(** C2 as the claim has it fails: with Red selected the statistics count the
    two Red rows and one distinct deck, with nothing selected all three rows
    and two distinct decks. *)
Lemma statistics_follow_the_filter :
  (∃ p table export,
     PlayerSearch.main PlainRe.engine
       (Examples.by_columns Examples.select_red ["deck"]) Examples.decks
     = inr (PlayerSearch.Page p) ∧
     PlayerSearch.pg_results p =
       PlayerSearch.Shown table export
         [("deck", PlayerSearch.ObjectSummary 2 1 (Some 2%nat))]) ∧
  (∃ p table export,
     PlayerSearch.main PlainRe.engine
       (Examples.by_columns Examples.no_selection ["deck"]) Examples.decks
     = inr (PlayerSearch.Page p) ∧
     PlayerSearch.pg_results p =
       PlayerSearch.Shown table export
         [("deck", PlayerSearch.ObjectSummary 3 2 (Some 2%nat))]).
Proof.
  split; (eexists _, _, _; split; [reflexivity|]; vm_compute; reflexivity).
Qed.

(** C9, at the deck table with Red selected and no column chosen. *)
Lemma export_refused_without_columns_witness :
  ∃ p, PlayerSearch.main PlainRe.engine
         (Examples.by_columns Examples.select_red []) Examples.decks
       = inr (PlayerSearch.Page p) ∧
       PlayerSearch.pg_found p = 2%nat ∧
       PlayerSearch.pg_results p = PlayerSearch.SelectColumnWarning.
Proof.
  eexists. split; [reflexivity|]. split; [reflexivity|].
  destruct (export_refused_without_columns PlainRe.engine
              (Examples.by_columns Examples.select_red []) Examples.decks)
    as (_ & H & _).
  destruct (H eq_refl) as [(e & He & _)|(l & p & _ & Hp & _ & Hw & _)];
    [discriminate He|].
  vm_compute in Hp. injection Hp as <-.
  apply Hw; [discriminate|reflexivity].
Defined.

(** C9 as the claim has it fails. When the keyword matches no row, the
    result area is the note that nothing matched, with no column chosen (no
    warning) as with the deck column chosen (no download); and a loaded table
    without rows gives the no-data warning, with the deck column chosen (no
    download). *)
Lemma no_match_shows_neither_warning_nor_download :
  (∃ p, PlayerSearch.main PlainRe.engine
          (Examples.by_keyword "zzz" []) Examples.decks
        = inr (PlayerSearch.Page p) ∧
        PlayerSearch.pg_results p = PlayerSearch.NoMatchInfo ∧
        PlayerSearch.pg_results p ≠ PlayerSearch.SelectColumnWarning) ∧
  (∃ p, PlayerSearch.main PlainRe.engine
          (Examples.by_keyword "zzz" ["deck"]) Examples.decks
        = inr (PlayerSearch.Page p) ∧
        PlayerSearch.pg_results p = PlayerSearch.NoMatchInfo) ∧
  PlayerSearch.main PlainRe.engine
    (Examples.by_columns Examples.no_selection ["deck"])
    (mkDataFrame [("deck", Dobject)] [])
  = inr PlayerSearch.NoDataWarning.
Proof.
  split_and!; [eexists; split; [reflexivity|]; split; [reflexivity|discriminate]
              |eexists; split; reflexivity
              |reflexivity].
Qed.

(** * Properties of the quick statistics *)

(** ** Rounding to binary64 below a bound

    The rounding of [SpecFloat] shifts the significand to the right, keeping
    a round and a sticky bit, and then rounds to nearest.  A number that
    does not exceed an integer [c ≤ 100] is not rounded past [c], because
    [c] itself is a binary64 number. *)

Section Binary64.
Open Scope Z_scope.

Lemma digits2_pos_le p : 2 ^ (Z.pos (digits2_pos p) - 1) ≤ Z.pos p.
Proof.
  induction p as [p IH|p IH|]; simpl; [| |done].
  all: rewrite Pos2Z.inj_succ;
    replace (Z.succ (Z.pos (digits2_pos p)) - 1)
      with (Z.succ (Z.pos (digits2_pos p) - 1)) by lia;
    rewrite Z.pow_succ_r by lia; lia.
Qed.

(** The exponent chosen for a number of at most 100 is not above 0. *)
Lemma fexp_le_0 m e c :
  0 ≤ m → e ≤ 0 → 0 ≤ c ≤ 100 → m ≤ c * 2 ^ (- e) →
  fexp 53 1024 (Zdigits2 m + e) ≤ 0.
Proof.
  intros Hm He Hc Hle. unfold fexp, emin.
  destruct m as [|p|p]; [simpl; lia| |lia].
  simpl Zdigits2. pose proof (digits2_pos_le p) as Hd.
  assert (2 ^ (Z.pos (digits2_pos p) - 1) < 2 ^ (53 - e)) as Hlt.
  { eapply Z.le_lt_trans; [exact Hd|]. eapply Z.le_lt_trans; [exact Hle|].
    replace (53 - e) with (53 + - e) by lia. rewrite Z.pow_add_r by lia.
    assert (0 < 2 ^ (- e)) by (apply Z.pow_pos_nonneg; lia).
    assert (c < 2 ^ 53) by (change (2 ^ 53) with 9007199254740992; lia).
    nia. }
  apply Z.pow_lt_mono_r_iff in Hlt; lia.
Qed.

Lemma pow2_step e : e + 1 ≤ 0 → 2 ^ (- e) = 2 * 2 ^ (- (e + 1)).
Proof.
  intros. replace (- e) with (Z.succ (- (e + 1))) by lia.
  rewrite Z.pow_succ_r by lia. done.
Qed.

Lemma shr_1_below c mrs e :
  e + 1 ≤ 0 → Spec.below c mrs e → Spec.below c (shr_1 mrs) (e + 1).
Proof.
  intros He [Hm H]. destruct mrs as [m r s]. simpl in *.
  rewrite (pow2_step e He) in H. unfold Spec.below.
  destruct m as [|[p|p|]|]; simpl in *; [| | | |lia].
  all: split; [lia|].
  all: destruct H as [H|(H & -> & ->)]; [left; lia|try lia].
  all: right; split; [lia|done].
Qed.

Lemma iter_shr_1_below c k : ∀ mrs e,
  e + Z.pos k ≤ 0 → Spec.below c mrs e →
  Spec.below c (SpecFloat.iter_pos shr_1 k mrs) (e + Z.pos k).
Proof.
  induction k as [k IH|k IH|]; intros mrs e He H; simpl.
  - replace (e + Z.pos k~1) with ((e + 1 + Z.pos k) + Z.pos k) by lia.
    apply IH; [lia|]. apply IH; [lia|]. apply shr_1_below; [lia|done].
  - replace (e + Z.pos k~0) with ((e + Z.pos k) + Z.pos k) by lia.
    apply IH; [lia|]. apply IH; [lia|done].
  - apply shr_1_below; done.
Qed.

Lemma shr_fexp_below c m e l :
  0 ≤ c ≤ 100 → 0 ≤ m → e ≤ 0 →
  m < c * 2 ^ (- e) ∨ (m = c * 2 ^ (- e) ∧ l = loc_Exact) →
  ∃ mrs' e', shr_fexp 53 1024 m e l = (mrs', e') ∧ e' ≤ 0 ∧
             Spec.below c mrs' e'.
Proof.
  intros Hc Hm He H. unfold shr_fexp, shr.
  assert (Spec.below c (shr_record_of_loc m l) e) as Hb.
  { split; [by destruct l as [|[]]|].
    destruct H as [H|[H ->]]; [left; by destruct l as [|[]]|right; done]. }
  assert (fexp 53 1024 (Zdigits2 m + e) ≤ 0) as Hf.
  { apply (fexp_le_0 m e c); [done..|]. destruct H as [H|[H _]]; lia. }
  destruct (fexp 53 1024 (Zdigits2 m + e) - e) as [|k|k] eqn:Hk; eauto.
  eexists _, _. split; [done|]. split; [lia|].
  apply iter_shr_1_below; [lia|done].
Qed.

Lemma round_nearest_even_below c mrs e :
  Spec.below c mrs e →
  0 ≤ round_nearest_even (shr_m mrs) (loc_of_shr_record mrs) ≤ c * 2 ^ (- e).
Proof.
  intros [Hm H]. destruct mrs as [m r s]. simpl in *.
  destruct H as [H|(H & -> & ->)]; [|simpl; lia].
  destruct r, s; simpl; try destruct (Z.even m); lia.
Qed.

Lemma binary_round_aux_within c m e l :
  0 ≤ c ≤ 100 → 0 ≤ m → e ≤ 0 →
  m < c * 2 ^ (- e) ∨ (m = c * 2 ^ (- e) ∧ l = loc_Exact) →
  Spec.within c (binary_round_aux 53 1024 false m e l).
Proof.
  intros Hc Hm He H. unfold binary_round_aux.
  destruct (shr_fexp_below c m e l Hc Hm He H) as (mrs' & e' & -> & He' & Hb).
  pose proof (round_nearest_even_below c mrs' e' Hb) as Hr.
  destruct (shr_fexp_below c
              (round_nearest_even (shr_m mrs') (loc_of_shr_record mrs'))
              e' loc_Exact Hc) as (mrs'' & e'' & -> & He'' & Hb'');
    [lia|lia| |].
  { destruct (decide (round_nearest_even (shr_m mrs') (loc_of_shr_record mrs')
                      = c * 2 ^ (- e'))); [by right|left; lia]. }
  destruct Hb'' as [Hm'' Hb'']. destruct (shr_m mrs'') as [|p|p];
    [by left| |lia].
  right. replace (e'' <=? 1024 - 53) with true by (symmetry; apply Z.leb_le; lia).
  eexists _, _. split; [done|]. split; [done|]. lia.
Qed.

(** The quotient of two integers, the first not above the second, rounds
    to a number between 0 and 1. *)
Lemma true_divide_within (w n : nat) :
  (w ≤ n)%nat → (0 < n)%nat → Spec.within 1 (CardTracker.true_divide w n).
Proof.
  intros Hwn Hn. unfold CardTracker.true_divide, CardTracker.int_operand.
  destruct n as [|n']; [lia|]. destruct w as [|w']; [by left|].
  set (n := S n') in *. set (w := S w') in *.
  unfold SFdiv, SFdiv_core_binary. simpl xorb.
  set (e' := Z.min _ _).
  assert (e' ≤ 0) as He' by (unfold e'; lia).
  set (m' := match 0 - 0 - e' with Z0 => _ | Z.pos _ => _ | Z.neg _ => _ end).
  assert (m' = Z.pos (Pos.of_nat w) * 2 ^ (- e')) as Hm'.
  { unfold m'. destruct (0 - 0 - e') as [|k|k] eqn:Hk;
      [|rewrite Z.shiftl_mul_pow2 by lia|lia].
    - replace (- e') with 0 by lia. lia.
    - replace (- e') with (Z.pos k) by lia. done. }
  clearbody m' e'.
  assert (Z.pos (Pos.of_nat w) ≤ Z.pos (Pos.of_nat n)) as Hle.
  { unfold w, n. rewrite <- !Pos.of_nat_succ. lia. }
  set (a := Z.pos (Pos.of_nat w)) in *. set (b := Z.pos (Pos.of_nat n)) in *.
  assert (0 < a) by done. assert (0 < b) by done.
  assert (0 < 2 ^ (- e')) by (apply Z.pow_pos_nonneg; lia).
  pose proof (Z_div_mod m' b ltac:(lia)) as Hdm.
  destruct (Z.div_eucl m' b) as [q r]. destruct Hdm as [Hdm Hr].
  apply binary_round_aux_within; [lia| |done|].
  - nia.
  - assert (q ≤ 2 ^ (- e')) by nia.
    destruct (decide (q = 2 ^ (- e'))) as [->|]; [right|left; lia].
    split; [lia|]. assert (r = 0) as -> by nia.
    unfold new_location, new_location_even, new_location_odd.
    by destruct (Z.even b).
Qed.

(** The product of a number between 0 and 1 with 100.0 rounds to a number
    between 0 and 100. *)
Lemma mul_hundred_within x :
  Spec.within 1 x → Spec.within 100 (SFmul 53 1024 x CardTracker.hundred).
Proof.
  assert (CardTracker.hundred = S754_finite false 7036874417766400 (-46))
    as -> by (vm_compute; reflexivity).
  intros [->|(m & e & -> & He & Hm)]; [by left|].
  unfold SFmul. simpl xorb.
  apply binary_round_aux_within; [lia|lia|lia|].
  replace (- (e + -46)) with (- e + 46) by lia. rewrite Z.pow_add_r by lia.
  change (2 ^ 46) with 70368744177664. rewrite Pos2Z.inj_mul.
  assert (0 < 2 ^ (- e)) by (apply Z.pow_pos_nonneg; lia).
  destruct (decide (Z.pos m = 2 ^ (- e))) as [Heq|]; [right|left; nia].
  split; [|done]. rewrite Heq. lia.
Qed.

Lemma within_value c x :
  0 ≤ c → Spec.within c x →
  (0 <= CardTracker.binary64_value x)%Q ∧
  (CardTracker.binary64_value x <= inject_Z c)%Q.
Proof.
  intros Hc [->|(m & e & -> & He & Hm)]; unfold CardTracker.binary64_value.
  - unfold Qle; simpl. lia.
  - assert (0 < 2 ^ (- e)) as Hp by (apply Z.pow_pos_nonneg; lia).
    destruct (0 <=? e) eqn:H0.
    + apply Z.leb_le in H0. assert (e = 0) as -> by lia.
      change (2 ^ (- 0)) with 1 in Hm. unfold Qle; simpl. lia.
    + destruct (2 ^ (- e)) as [|p|p] eqn:Hpe; [lia| |lia].
      unfold Qle; simpl. lia.
Qed.

End Binary64.

(** ** How far rounding to binary64 moves a number *)

Section Near.
Open Scope Z_scope.

Lemma digits2_pos_gt p : Z.pos p < 2 ^ Z.pos (digits2_pos p).
Proof.
  induction p as [p IH|p IH|]; simpl; [| |done].
  all: rewrite Pos2Z.inj_succ, Z.pow_succ_r by lia; lia.
Qed.

(** The exponent chosen for a number below [2 ^ (53 + E - e)] is at most [E]. *)
Lemma fexp_le m e E :
  0 ≤ m → -1074 ≤ E → e ≤ E → m < 2 ^ (53 + E - e) →
  fexp 53 1024 (Zdigits2 m + e) ≤ E.
Proof.
  intros Hm HE He Hlt. unfold fexp, emin.
  destruct m as [|p|p]; [simpl; lia| |lia].
  simpl Zdigits2. pose proof (digits2_pos_le p) as Hd.
  assert (2 ^ (Z.pos (digits2_pos p) - 1) < 2 ^ (53 + E - e)) as Hp by lia.
  apply Z.pow_lt_mono_r_iff in Hp; lia.
Qed.

Lemma shr_1_div2 mrs : 0 ≤ shr_m mrs → shr_m (shr_1 mrs) = shr_m mrs / 2.
Proof.
  destruct mrs as [m r s]. simpl. intros Hm. rewrite <-Z.div2_div.
  by destruct m as [|[p|p|]|].
Qed.

Lemma iter_shr_1_div k : ∀ mrs,
  0 ≤ shr_m mrs →
  shr_m (SpecFloat.iter_pos shr_1 k mrs) = shr_m mrs / 2 ^ Z.pos k.
Proof.
  assert (∀ mrs, 0 ≤ shr_m mrs → 0 ≤ shr_m (shr_1 mrs)) as Hpos1.
  { intros mrs H. rewrite shr_1_div2 by done. by apply Z.div_pos. }
  induction k as [k IH|k IH|]; intros mrs Hm; simpl.
  - assert (0 < 2 ^ Z.pos k) as Hp by (by apply Z.pow_pos_nonneg).
    assert (0 ≤ shr_m (SpecFloat.iter_pos shr_1 k (shr_1 mrs))) as Hpos2.
    { rewrite IH by auto. apply Z.div_pos; [auto|done]. }
    rewrite IH, IH, shr_1_div2 by auto.
    rewrite !Z.div_div by lia. f_equal.
    assert (Z.pos k~1 = 1 + Z.pos k + Z.pos k) as -> by lia.
    rewrite !Z.pow_add_r by lia. change (2 ^ 1) with 2. ring.
  - assert (0 < 2 ^ Z.pos k) as Hp by (by apply Z.pow_pos_nonneg).
    assert (0 ≤ shr_m (SpecFloat.iter_pos shr_1 k mrs)) as Hpos2.
    { rewrite IH by auto. apply Z.div_pos; [auto|done]. }
    rewrite IH, IH by auto.
    rewrite !Z.div_div by lia. f_equal.
    assert (Z.pos k~0 = Z.pos k + Z.pos k) as -> by lia.
    rewrite !Z.pow_add_r by lia. ring.
  - rewrite shr_1_div2 by done. done.
Qed.

Lemma shr_fexp_div m e l E :
  0 ≤ m → -1074 ≤ E → e ≤ E → m < 2 ^ (53 + E - e) →
  ∃ mrs' e', shr_fexp 53 1024 m e l = (mrs', e') ∧ e ≤ e' ≤ E ∧
             shr_m mrs' = m / 2 ^ (e' - e).
Proof.
  intros Hm HE He Hlt. unfold shr_fexp, shr.
  pose proof (fexp_le m e E Hm HE He Hlt) as Hf.
  assert (shr_m (shr_record_of_loc m l) = m) as Hrec by (by destruct l as [|[]]).
  destruct (fexp 53 1024 (Zdigits2 m + e) - e) as [|k|k] eqn:Hk.
  - eexists _, _. split; [done|]. split; [lia|].
    rewrite Hrec, Z.sub_diag. change (2 ^ 0) with 1. by rewrite Z.div_1_r.
  - eexists _, _. split; [done|]. split; [lia|].
    rewrite iter_shr_1_div by (rewrite Hrec; done). rewrite Hrec.
    do 2 f_equal. lia.
  - eexists _, _. split; [done|]. split; [lia|].
    rewrite Hrec, Z.sub_diag. change (2 ^ 0) with 1. by rewrite Z.div_1_r.
Qed.

Lemma round_nearest_even_near m l :
  m ≤ round_nearest_even m l ≤ m + 1.
Proof. destruct l as [|[]]; simpl; try destruct (Z.even m); lia. Qed.

(** Rounding moves a number by at most two units of the last place of the
    result, whose exponent is at most [E] when the number is below
    [2 ^ (53 + E) - 1]. *)
Lemma binary_round_aux_near m e l E :
  0 ≤ m → -1074 ≤ E ≤ 0 → e ≤ E → (m + 2 ^ (E - e)) < 2 ^ (53 + E - e) →
  ∃ m3 e3, binary_round_aux 53 1024 false m e l = Spec.of_parts m3 e3 ∧
           0 ≤ m3 ∧ e ≤ e3 ≤ E ∧
           m - 2 * 2 ^ (e3 - e) ≤ m3 * 2 ^ (e3 - e) ≤ m + 2 * 2 ^ (e3 - e).
Proof.
  intros Hm HE He Hlt. unfold binary_round_aux.
  assert (0 < 2 ^ (E - e)) as HpE by (apply Z.pow_pos_nonneg; lia).
  destruct (shr_fexp_div m e l E) as (mrs' & e' & -> & He' & Hm'); [lia..|].
  pose proof (round_nearest_even_near (shr_m mrs') (loc_of_shr_record mrs'))
    as Hr.
  set (m'' := round_nearest_even _ _) in *. clearbody m''.
  set (m' := shr_m mrs') in *. clearbody m'. clear mrs'.
  assert (0 < 2 ^ (e' - e)) as Hp1 by (apply Z.pow_pos_nonneg; lia).
  pose proof (Z.div_mod m (2 ^ (e' - e)) ltac:(lia)) as Hdm.
  pose proof (Z.mod_pos_bound m (2 ^ (e' - e)) ltac:(lia)) as Hmb.
  rewrite <-Hm' in Hdm. set (r1 := m mod _) in *. clearbody r1.
  assert (0 ≤ m') as Hm'0 by (subst m'; apply Z.div_pos; lia).
  assert (2 ^ (E - e) = 2 ^ (E - e') * 2 ^ (e' - e)) as HEe.
  { rewrite <-Z.pow_add_r by lia. f_equal. lia. }
  assert (0 < 2 ^ (E - e')) as HpE' by (apply Z.pow_pos_nonneg; lia).
  assert (2 ^ (53 + E - e) = 2 ^ (53 + E - e') * 2 ^ (e' - e)) as H53.
  { rewrite <-Z.pow_add_r by lia. f_equal. lia. }
  assert (m'' < 2 ^ (53 + E - e')) as Hlt''.
  { assert (2 ^ (53 + E - e') = 2 ^ 53 * 2 ^ (E - e')) as Heq.
    { rewrite <-Z.pow_add_r by lia. f_equal. lia. }
    assert (2 ^ (53 + E - e) = 2 ^ 53 * 2 ^ (E - e)) as Heq2.
    { rewrite <-Z.pow_add_r by lia. f_equal. lia. }
    nia. }
  destruct (shr_fexp_div m'' e' loc_Exact E) as (mrs'' & e'' & -> & He'' & Hm'');
    [lia..|].
  set (m3 := shr_m mrs'') in *. clearbody m3. clear mrs''.
  assert (0 < 2 ^ (e'' - e')) as Hp2 by (apply Z.pow_pos_nonneg; lia).
  pose proof (Z.div_mod m'' (2 ^ (e'' - e')) ltac:(lia)) as Hdm2.
  pose proof (Z.mod_pos_bound m'' (2 ^ (e'' - e')) ltac:(lia)) as Hmb2.
  rewrite <-Hm'' in Hdm2. set (r2 := m'' mod _) in *. clearbody r2.
  assert (0 ≤ m3) as Hm3 by (subst m3; apply Z.div_pos; lia).
  exists m3, e''. split_and!; try lia.
  - destruct m3 as [|p|p]; [done| |lia]. simpl.
    by replace (e'' <=? 1024 - 53) with true by (symmetry; apply Z.leb_le; lia).
  - assert (2 ^ (e'' - e) = 2 ^ (e'' - e') * 2 ^ (e' - e)) as ->.
    { rewrite <-Z.pow_add_r by lia. f_equal. lia. }
    nia.
  - assert (2 ^ (e'' - e) = 2 ^ (e'' - e') * 2 ^ (e' - e)) as ->.
    { rewrite <-Z.pow_add_r by lia. f_equal. lia. }
    nia.
Qed.


Lemma digits2_pos_mono p q : Z.pos p ≤ Z.pos q →
  Z.pos (digits2_pos p) ≤ Z.pos (digits2_pos q).
Proof.
  intros Hpq. pose proof (digits2_pos_le p). pose proof (digits2_pos_gt q).
  assert (2 ^ (Z.pos (digits2_pos p) - 1) < 2 ^ Z.pos (digits2_pos q)) as H1
    by lia.
  apply Z.pow_lt_mono_r_iff in H1; lia.
Qed.

(** The value of a binary64 number given by its parts, for a negative
    exponent. *)
Lemma of_parts_value m e :
  0 ≤ m → e ≤ 0 →
  (CardTracker.binary64_value (Spec.of_parts m e) == m # Z.to_pos (2 ^ (- e)))%Q.
Proof.
  intros Hm He. destruct m as [|p|p]; [done| |lia]. simpl.
  destruct (0 <=? e) eqn:H0.
  - apply Z.leb_le in H0. assert (e = 0) as -> by lia. unfold Qeq. simpl. lia.
  - unfold Qeq. simpl. lia.
Qed.

(** The quotient of two integers in binary64 is within three units of the
    52nd binary place of the exact quotient. *)
Lemma true_divide_near (w n : nat) :
  (w ≤ n)%nat → (0 < n)%nat →
  (Qabs (CardTracker.binary64_value (CardTracker.true_divide w n)
         - (Z.of_nat w # Pos.of_nat n)) <= 3 # 2 ^ 52)%Q.
Proof.
  intros Hwn Hn. unfold CardTracker.true_divide, CardTracker.int_operand.
  destruct n as [|n']; [lia|]. destruct w as [|w']; [done|].
  set (n := S n') in *. set (w := S w') in *.
  unfold SFdiv, SFdiv_core_binary. simpl xorb.
  assert (Z.pos (Pos.of_nat w) ≤ Z.pos (Pos.of_nat n)) as Hle.
  { unfold w, n. rewrite <- !Pos.of_nat_succ. lia. }
  assert (Z.of_nat w = Z.pos (Pos.of_nat w)) as -> by (unfold w; lia).
  set (a := Pos.of_nat w) in *. set (b := Pos.of_nat n) in *.
  clearbody a b. clear w n Hwn Hn w' n'.
  pose proof (digits2_pos_mono a b Hle) as Hd.
  set (e := Z.min _ _).
  assert (e ≤ -53) as He.
  { unfold e, fexp, emin. simpl Zdigits2. lia. }
  set (m' := match 0 - 0 - e with Z0 => _ | Z.pos _ => _ | Z.neg _ => _ end).
  assert (m' = Z.pos a * 2 ^ (- e)) as Hm'.
  { unfold m'. destruct (0 - 0 - e) as [|k|k] eqn:Hk;
      [lia|rewrite Z.shiftl_mul_pow2 by lia|lia].
    replace (- e) with (Z.pos k) by lia. done. }
  clearbody m' e.
  assert (0 < 2 ^ (- e)) as HS by (apply Z.pow_pos_nonneg; lia).
  pose proof (Z_div_mod m' (Z.pos b) ltac:(lia)) as Hdm.
  destruct (Z.div_eucl m' (Z.pos b)) as [q r]. destruct Hdm as [Hdm Hr].
  assert (0 ≤ q ≤ 2 ^ (- e)) as Hq by nia.
  destruct (binary_round_aux_near q e (new_location (Z.pos b) r) (-52))
    as (m3 & e3 & -> & Hm3 & He3 & Hnear); [lia..| |].
  { replace (53 + -52 - e) with (1 + - e) by lia.
    replace (-52 - e) with (- e - 52) by lia.
    rewrite Z.pow_add_r by lia. change (2 ^ 1) with 2.
    assert (2 ^ (- e - 52) < 2 ^ (- e)) by (apply Z.pow_lt_mono_r; lia).
    lia. }
  rewrite of_parts_value by lia.
  assert (2 ^ (- e) = 2 ^ (- e3) * 2 ^ (e3 - e)) as HSG.
  { rewrite <-Z.pow_add_r by lia. f_equal. lia. }
  assert (0 < 2 ^ (e3 - e)) as HG by (apply Z.pow_pos_nonneg; lia).
  assert (2 ^ 52 ≤ 2 ^ (- e3)) as HP by (apply Z.pow_le_mono_r; lia).
  set (G := 2 ^ (e3 - e)) in *. clearbody G.
  destruct (2 ^ (- e3)) as [|P|P] eqn:HPe; [lia| |lia].
  rewrite HSG in *. clear HSG HS.
  assert (Z.pos b * (m3 - 2) ≤ Z.pos a * Z.pos P) as Hlo by nia.
  assert (Z.pos a * Z.pos P < Z.pos b * (m3 + 3)) as Hhi by nia.
  apply Qabs_Qle_condition. unfold Qle, Qminus, Qplus, Qopp. simpl.
  change (2 ^ 52) with 4503599627370496 in *.
  rewrite !Pos2Z.inj_mul. split; nia.
Qed.

(** The product with 100.0 in binary64 is within the 45th binary place of
    the exact product. *)
Lemma mul_hundred_near x :
  Spec.within 1 x →
  (Qabs (CardTracker.binary64_value (SFmul 53 1024 x CardTracker.hundred)
         - CardTracker.binary64_value x * 100) <= 1 # 2 ^ 45)%Q.
Proof.
  assert (CardTracker.hundred = S754_finite false 7036874417766400 (-46))
    as -> by (vm_compute; reflexivity).
  intros [->|(m & e & -> & He & Hm)]; [done|].
  unfold SFmul. simpl xorb.
  assert (0 < 2 ^ (- e)) as HS by (apply Z.pow_pos_nonneg; lia).
  destruct (binary_round_aux_near (Z.pos (m * 7036874417766400)) (e + -46)
              loc_Exact (-46))
    as (m3 & e3 & -> & Hm3 & He3 & Hnear); [lia..| |].
  { replace (53 + -46 - (e + -46)) with (53 + - e) by lia.
    replace (-46 - (e + -46)) with (- e) by lia.
    rewrite Z.pow_add_r by lia. change (2 ^ 53) with 9007199254740992.
    rewrite Pos2Z.inj_mul. nia. }
  rewrite of_parts_value by lia.
  rewrite (of_parts_value (Z.pos m) e) by lia.
  assert (2 ^ (- (e + -46)) = 2 ^ (- e3) * 2 ^ (e3 - (e + -46))) as HSG.
  { rewrite <-Z.pow_add_r by lia. f_equal. lia. }
  assert (2 ^ (- (e + -46)) = 2 ^ (- e) * 70368744177664) as HSP.
  { replace (- (e + -46)) with (- e + 46) by lia. by rewrite Z.pow_add_r by lia. }
  assert (0 < 2 ^ (e3 - (e + -46))) as HG by (apply Z.pow_pos_nonneg; lia).
  assert (2 ^ 46 ≤ 2 ^ (- e3)) as HP by (apply Z.pow_le_mono_r; lia).
  change (2 ^ 46) with 70368744177664 in HP.
  set (G := 2 ^ (e3 - (e + -46))) in *. clearbody G.
  rewrite Pos2Z.inj_mul in Hnear.
  destruct (2 ^ (- e3)) as [|P3|P3] eqn:HP3; [lia| |lia].
  destruct (2 ^ (- e)) as [|P|P] eqn:HPe; [lia| |lia].
  assert (- (2 * Z.pos P) ≤ m3 * Z.pos P - 100 * Z.pos m * Z.pos P3
          ≤ 2 * Z.pos P) as Hdiff by nia.
  apply Qabs_Qle_condition. unfold Qle, Qminus, Qplus, Qopp, Qmult. simpl.
  change (2 ^ 45)%positive with 35184372088832%positive.
  rewrite !Pos2Z.inj_mul. split; nia.
Qed.

End Near.

Section Summary.
Import CardTracker.

Lemma wins_le_len T : (wins T ≤ len T)%nat.
Proof. apply length_filter. Qed.

Lemma wins_counts_result T : wins T = Spec.rows_with_result WIN T.
Proof.
  unfold wins, Spec.rows_with_result, len, column, select_rows. simpl.
  induction (rows T) as [|r rs IH]; [done|].
  rewrite filter_cons, fmap_cons. simpl.
  destruct (decide_rel eq (r !! "result") (Some (SStr WIN))) as [Heq|Hne].
  - rewrite decide_True by (by apply bool_decide_eq_true). simpl. by rewrite IH.
  - rewrite decide_False by (by rewrite bool_decide_eq_true). done.
Qed.

(** The win ratio as computed in binary64 lies between 0 and 100. *)
Lemma win_rate_within T : Spec.within 100 (win_rate T).
Proof.
  unfold win_rate. pose proof (wins_le_len T) as Hle.
  destruct (0 <? len T)%nat eqn:Hlen; [|by left].
  apply Nat.ltb_lt in Hlen.
  by apply mul_hundred_within, true_divide_within.
Qed.

Lemma win_rate_bounds T :
  (0 <= binary64_value (win_rate T))%Q ∧ (binary64_value (win_rate T) <= 100)%Q.
Proof. apply (within_value 100); [done|apply win_rate_within]. Qed.

Lemma round_half_even_near (x : Q) :
  (Qabs (x - inject_Z (round_half_even x)) <= 1 # 2)%Q.
Proof.
  destruct x as [n d]. unfold round_half_even. simpl.
  pose proof (Z.div_mod n (Z.pos d) ltac:(lia)) as Hdm.
  pose proof (Z.mod_pos_bound n (Z.pos d) ltac:(lia)) as Hmod.
  set (q := (n / Z.pos d)%Z) in *. set (r := (n mod Z.pos d)%Z) in *.
  clearbody q r. subst n.
  destruct (Z.compare_spec (2 * r) (Z.pos d)) as [Hcmp|Hcmp|Hcmp];
    [destruct (Z.even q)| |];
    unfold Qle, Qabs, Qminus, Qplus, Qopp, inject_Z; simpl;
    rewrite ?Pos.mul_1_r;
    first
      [ replace ((Z.pos d * q + r) * 1 + - q * Z.pos d)%Z with r by ring
      | replace ((Z.pos d * q + r) * 1 + - (q + 1) * Z.pos d)%Z
          with (r - Z.pos d)%Z by ring ];
    lia.
Qed.

(** Half way between two integers the even one is taken. *)
Lemma round_half_even_tie (x : Q) :
  (Qabs (x - inject_Z (round_half_even x)) == 1 # 2)%Q →
  Z.even (round_half_even x) = true.
Proof.
  destruct x as [n d]. unfold round_half_even. simpl.
  pose proof (Z.div_mod n (Z.pos d) ltac:(lia)) as Hdm.
  pose proof (Z.mod_pos_bound n (Z.pos d) ltac:(lia)) as Hmod.
  set (q := (n / Z.pos d)%Z) in *. set (r := (n mod Z.pos d)%Z) in *.
  clearbody q r. subst n.
  destruct (Z.compare_spec (2 * r) (Z.pos d)) as [Hcmp|Hcmp|Hcmp];
    [destruct (Z.even q) eqn:Hq; [done|] | |];
    unfold Qeq, Qabs, Qminus, Qplus, Qopp, inject_Z; simpl;
    rewrite ?Pos.mul_1_r;
    first
      [ replace ((Z.pos d * q + r) * 1 + - q * Z.pos d)%Z with r by ring
      | replace ((Z.pos d * q + r) * 1 + - (q + 1) * Z.pos d)%Z
          with (r - Z.pos d)%Z by ring ];
    try lia.
  intros _. rewrite Z.even_add, Hq. done.
Qed.

(** One decimal of a number between 0 and 100: the digits of the nearest
    number of tenths, ties to even. *)
Lemma format_1f_tenths (x : Q) :
  (0 <= x)%Q → (x <= 100)%Q →
  ∃ tenths : Z,
    (0 ≤ tenths ≤ 1000)%Z ∧
    format_1f x = pretty (tenths / 10)%Z +:+ "." +:+ pretty (tenths mod 10)%Z ∧
    (Qabs (x * 10 - inject_Z tenths) <= 1 # 2)%Q ∧
    ((Qabs (x * 10 - inject_Z tenths) == 1 # 2)%Q → Z.even tenths = true).
Proof.
  intros Hlo Hhi.
  assert (Qabs x = x) as Habs.
  { destruct x as [n d]. unfold Qabs. f_equal. unfold Qle in Hlo. simpl in Hlo.
    lia. }
  pose proof (round_half_even_near (x * 10)) as Hnear.
  pose proof (round_half_even_tie (x * 10)) as Htie.
  exists (round_half_even (x * 10)).
  split; [|split; [|split; [exact Hnear|exact Htie]]].
  - set (t := round_half_even _) in *. clearbody t. clear Htie.
    destruct x as [n d].
    unfold Qle, Qabs, Qminus, Qplus, Qopp, Qmult, inject_Z in *. simpl in *.
    rewrite ?Pos.mul_1_r in *. nia.
  - unfold format_1f. rewrite Habs.
    destruct (Qlt_le_dec x 0) as [Hneg|_]; [by apply Qlt_not_le in Hneg|].
    done.
Qed.

(** C5. The win count is the number of rows whose result cell is the win
    token.  The win ratio is the quotient of that count and the number of
    rows, rounded to binary64, times 100.0, rounded to binary64, and 0 for a
    table without rows or without a won match; it is a finite number
    between 0 and 100.
    The label shows it with one decimal: the digits of the number of tenths
    nearest to it, ties to even, which is between 0.0 and 100.0.  The three
    matches won, lost, won give 3, 2 and 66.7%. *)
Theorem win_ratio (T : DataFrame) :
  wins T = Spec.rows_with_result WIN T ∧
  (wins T ≠ 0%nat →
   win_rate T =
     SFmul 53 1024
       (SFdiv 53 1024 (S754_finite false (Pos.of_nat (wins T)) 0)
                      (S754_finite false (Pos.of_nat (len T)) 0))
       (S754_finite false 7036874417766400 (-46))) ∧
  (wins T = 0%nat → win_rate T = S754_zero false) ∧
  (len T = 0%nat → binary64_value (win_rate T) == 0)%Q ∧
  Spec.within 100 (win_rate T) ∧
  (0 <= binary64_value (win_rate T))%Q ∧
  (binary64_value (win_rate T) <= 100)%Q ∧
  (has_column "result" T = true →
   win_count (metrics T) = Number (wins T) ∧
   ∃ tenths : Z,
     (0 ≤ tenths ≤ 1000)%Z ∧
     win_rate_label (metrics T) =
       Label (pretty (tenths / 10)%Z +:+ "." +:+ pretty (tenths mod 10)%Z
              +:+ "%") ∧
     (Qabs (binary64_value (win_rate T) * 10 - inject_Z tenths) <= 1 # 2)%Q ∧
     ((Qabs (binary64_value (win_rate T) * 10 - inject_Z tenths) == 1 # 2)%Q →
      Z.even tenths = true)) ∧
  metrics Examples.matches =
    mkQuickStats (Number 3) (Number 2) (Label "66.7%") (Label "N/A").
Proof.
  pose proof (wins_le_len T) as Hle.
  destruct (win_rate_bounds T) as [Hlo Hhi].
  split_and!.
  - apply wins_counts_result.
  - intros Hw. unfold win_rate, true_divide, int_operand.
    destruct (wins T) as [|w]; [done|]. destruct (len T) as [|n]; [lia|].
    simpl Nat.ltb. cbv iota. f_equal.
  - intros Hw. unfold win_rate, true_divide, int_operand. rewrite Hw.
    destruct (len T); reflexivity.
  - unfold win_rate. intros ->. reflexivity.
  - apply win_rate_within.
  - done.
  - done.
  - intros Hres. split; [unfold metrics; by rewrite Hres|].
    destruct (format_1f_tenths _ Hlo Hhi) as (t & Ht & Hfmt & Hnear & Htie).
    exists t. split; [done|]. split; [|by split].
    unfold metrics. rewrite Hres. simpl. rewrite Hfmt.
    by rewrite !str_app_assoc.
  - vm_compute. reflexivity.
Qed.

End Summary.

(** * Properties of the loaders *)

Section Loaders.

Variable to_datetime : list (option scalar) → list (option Timestamp).

Lemma dtype_of_is_Some d c : is_Some (dtype_of d c) ↔ c ∈ columns d.
Proof.
  unfold dtype_of, columns. rewrite fmap_is_Some. split.
  - intros [[i h] (Hi & Hc & _)%list_find_Some]. simpl in *. subst c.
    apply list_elem_of_fmap. exists h. split; [done|].
    by eapply list_elem_of_lookup_2.
  - intros (h & -> & Hin)%list_elem_of_fmap.
    eapply list_find_elem_of; [exact Hin|]. done.
Qed.

Lemma select_columns_columns cols d :
  columns (select_columns cols d) = filter (λ c, c ∈ columns d) cols.
Proof.
  unfold columns at 1, select_columns. simpl.
  induction cols as [|c cols IH]; [done|]. simpl.
  rewrite filter_cons.
  destruct (decide (c ∈ columns d)) as [Hin|Hout].
  - apply dtype_of_is_Some in Hin as [t Ht]. rewrite Ht. simpl. by f_equal.
  - destruct (dtype_of d c) eqn:Ht; [|done].
    destruct Hout. apply dtype_of_is_Some. by rewrite Ht.
Qed.

Lemma restrict_lookup cols (r : row) c :
  restrict cols r !! c = if decide (c ∈ cols) then r !! c else None.
Proof.
  unfold restrict. destruct (r !! c) as [v|] eqn:Hr.
  - destruct (decide (c ∈ cols)).
    + by apply map_lookup_filter_Some.
    + apply map_lookup_filter_None. right. intros v' _. done.
  - rewrite map_lookup_filter_None_2; [by destruct (decide _)|by left].
Qed.

Lemma keep_columns_columns keep d :
  columns (keep_columns keep d) = filter (λ c, keep c = true) (columns d).
Proof.
  unfold columns, keep_columns. simpl.
  induction (header d) as [|h hs IH]; [done|].
  rewrite fmap_cons, !filter_cons.
  destruct (decide (keep h.1 = true)); csimpl; by rewrite IH.
Qed.

Lemma assign_column_columns c t values d :
  columns (assign_column c t values d) = columns d.
Proof.
  unfold columns, assign_column. simpl.
  rewrite <-list_fmap_compose. apply list_fmap_ext.
  intros _ h _. simpl. by case_bool_decide.
Qed.

Lemma existsb_Exists {A} (f : A → bool) (l : list A) :
  existsb f l = true ↔ Exists (λ x, f x = true) l.
Proof.
  rewrite existsb_exists, Exists_exists.
  by setoid_rewrite list_elem_of_In.
Qed.

Lemma Forall2_fmap_diag {A B} (R : A → B → Prop) (f : A → B) (l : list A) :
  (∀ x, R x (f x)) → Forall2 R l (f <$> l).
Proof. intros HR. induction l; constructor; auto. Qed.

(** What the search page's loader does to a fetched table. *)
Lemma player_normalize_spec T :
  header (PlayerSearch.normalize T) =
    filter (λ h, PlayerSearch.unnamed h.1 = false) (header T) ∧
  Forall2 Spec.without_unnamed
          (filter (Spec.has_value T) (rows T))
          (rows (PlayerSearch.normalize T)).
Proof.
  unfold PlayerSearch.normalize, keep_columns, dropna_all, select_rows. simpl.
  split.
  - apply list_filter_iff. intros h. by rewrite negb_true_iff.
  - assert (filter (Spec.has_value T) (rows T) =
            filter (λ r : row,
                      existsb (λ c, bool_decide (is_Some (r !! c))) (columns T)
                      = true) (rows T)) as ->.
    { apply list_filter_iff. intros r. unfold Spec.has_value.
      rewrite existsb_Exists.
      apply Exists_proper; [|done]. intros c. by rewrite bool_decide_eq_true. }
    apply Forall2_fmap_diag. intros r c.
    destruct (r !! c) as [v|] eqn:Hr.
    + destruct (PlayerSearch.unnamed c) eqn:Hc.
      * apply map_lookup_filter_None. right. intros v' _. simpl.
        by rewrite Hc.
      * apply map_lookup_filter_Some. split; [done|]. simpl. by rewrite Hc.
    + rewrite map_lookup_filter_None_2; [by destruct (PlayerSearch.unnamed c)|].
      by left.
Qed.

(** What the landing page's loader does to a fetched table. *)
Lemma summary_normalize_spec T :
  (is_empty T = true → CardTracker.normalize to_datetime T = empty_frame) ∧
  (is_empty T = false →
   columns (CardTracker.normalize to_datetime T) =
     filter (λ c, c ∈ columns T) CardTracker.COLUMNS ∧
   length (rows (CardTracker.normalize to_datetime T)) = length (rows T) ∧
   ∀ i r', rows (CardTracker.normalize to_datetime T) !! i = Some r' →
           ∃ r, rows T !! i = Some r ∧ Spec.summary_row to_datetime T i r r').
Proof.
  unfold CardTracker.normalize. split; intros ->; [done|].
  set (needed := filter (λ c, c ∈ columns T) CardTracker.COLUMNS).
  assert (columns (select_columns needed T) = needed) as Hcols.
  { rewrite select_columns_columns. unfold needed.
    rewrite list_filter_filter. apply list_filter_iff. tauto. }
  assert (∀ c, c ∈ needed ↔ c ∈ CardTracker.COLUMNS ∧ c ∈ columns T) as Hneeded.
  { intros c. unfold needed. rewrite list_elem_of_filter. tauto. }
  unfold has_column. rewrite Hcols. case_bool_decide as Hdate.
  - split; [by rewrite assign_column_columns|].
    assert (column (select_columns needed T) "date" = column T "date") as Hcol.
    { unfold column, select_columns. simpl. rewrite <-list_fmap_compose.
      apply list_fmap_ext. intros _ r _. simpl.
      by rewrite restrict_lookup, decide_True. }
    unfold CardTracker.coerce_datetime. rewrite Hcol.
    unfold assign_column, select_columns. simpl.
    split; [by rewrite length_imap, length_fmap|].
    intros i r'. rewrite list_lookup_imap, !list_lookup_fmap.
    intros (r0 & (r & Hr & ->)%fmap_Some & ->)%fmap_Some.
    exists r. split; [done|]. intros c.
    destruct (decide (c = "date")) as [->|Hc].
    + rewrite lookup_partial_alter_eq.
      rewrite decide_True by (by apply Hneeded).
      by destruct (to_datetime (column T "date") !! i) as [[t|]|].
    + rewrite lookup_partial_alter_ne by done. rewrite restrict_lookup.
      destruct (decide (c ∈ needed)) as [Hin|Hout].
      * by rewrite decide_True by (by apply Hneeded).
      * by rewrite decide_False by (by rewrite <-Hneeded).
  - split; [done|].
    unfold select_columns. simpl.
    split; [by rewrite length_fmap|].
    intros i r'. rewrite list_lookup_fmap.
    intros (r & Hr & ->)%fmap_Some.
    exists r. split; [done|]. intros c.
    rewrite restrict_lookup.
    destruct (decide (c ∈ needed)) as [Hin|Hout].
    + rewrite decide_True by (by apply Hneeded).
      rewrite decide_False; [done|]. by intros ->.
    + by rewrite decide_False by (by rewrite <-Hneeded).
Qed.

Lemma load_player_data_fetched env key name client sheet T :
  truthy key = true →
  result (PlayerSearch.get_gspread_client env) = inr (Some client) →
  client key = inr sheet → sheet name = inr (inr T) →
  returns (PlayerSearch.load_player_data key name env)
          (PlayerSearch.normalize T).
Proof.
  unfold PlayerSearch.load_player_data, returns, result.
  intros -> Hclient Hkey Hname. simpl.
  unfold mbind, M_bind, bind.
  destruct (PlayerSearch.get_gspread_client env) as [tr [e|[c|]]];
    simpl in Hclient; simplify_eq.
  unfold call. rewrite Hkey. simpl. by rewrite Hname.
Qed.

Lemma load_summary_data_fetched env key client sheet T :
  truthy key = true →
  result (CardTracker.get_gspread_client env) = inr (Some client) →
  client key = inr sheet → sheet CardTracker.WORKSHEET_NAME = inr (inr T) →
  returns (CardTracker.load_summary_data to_datetime (Some key) env)
          (CardTracker.normalize to_datetime T).
Proof.
  unfold CardTracker.load_summary_data, returns, result.
  intros Htruthy Hclient Hkey Hname. simpl. rewrite Htruthy. simpl.
  unfold mbind, M_bind, bind.
  destruct (CardTracker.get_gspread_client env) as [tr [e|[c|]]];
    simpl in Hclient; simplify_eq.
  unfold call. rewrite Hkey. simpl. by rewrite Hname.
Qed.

Lemma yields_ret {A} (a : A) (P : A → Prop) : P a → yields (mret a) P.
Proof. intros HP. by exists a. Qed.

Lemma yields_bind {A B} (m : M A) (f : A → M B) (P : A → Prop)
    (Q : B → Prop) :
  yields m P → (∀ a, P a → yields (f a) Q) → yields (m ≫= f) Q.
Proof.
  intros (a & Hm & Ha) Hf. destruct (Hf a Ha) as (b & Hb & HQ).
  exists b. split; [|done].
  unfold mbind, M_bind, bind, result in *.
  destruct m as [tr [e|a']]; simpl in Hm; simplify_eq.
  destruct (f a) as [tr' r]. done.
Qed.

Lemma yields_try_except {A} (m : M A) (h : exn → M A) (P : A → Prop) :
  (∀ a, result m = inr a → P a) →
  (∀ e, result m = inl e → yields (h e) P) →
  yields (try_except m h) P.
Proof.
  unfold try_except, yields, result. intros Hok Hexn.
  destruct m as [tr [e|a]]; simpl in *.
  - destruct (Hexn e eq_refl) as (a & Ha & HP). exists a.
    destruct (h e) as [tr' r]. done.
  - exists a. auto.
Qed.

Lemma yields_weaken {A} (m : M A) (P Q : A → Prop) :
  yields m P → (∀ a, P a → Q a) → yields m Q.
Proof. intros (a & Hm & Ha) HPQ. exists a. auto. Qed.

Lemma result_call {A} ev (r : exn + A) : result (call ev r) = r.
Proof. done. Qed.

Lemma yields_st_error msg cause (P : unit → Prop) :
  P tt → yields (st_error msg cause) P.
Proof. intros HP. by exists tt. Qed.

(** The first step of [get_gspread_client], shared by both pages: whether
    the secrets are used. *)
Lemma use_secrets_settled env :
  Spec.credentials_settled env →
  yields
    (if has_secrets env then
       try_except
         (call (SecretsLookup "gcp_service_account")
               (secrets_contains env "gcp_service_account"))
         (λ e, match e with
               | StreamlitAPIException => mret false
               | _ => raise e
               end)
     else mret false)
    (λ b : bool, b = true → ∃ creds, from_service_account_info env = inr creds).
Proof.
  intros Hs. destruct (has_secrets env) eqn:Hhas; [|by apply yields_ret].
  apply yields_try_except.
  - intros b Hb Htrue. rewrite result_call in Hb. subst b.
    destruct Hs as [?|[?|[?|[_ ?]]]]; [congruence..|done].
  - intros e He. rewrite result_call in He.
    destruct Hs as [?|[?|[?|[? _]]]]; [congruence| |congruence..].
    assert (e = StreamlitAPIException) as -> by congruence.
    by apply yields_ret.
Qed.

(** Once the credentials step goes through, the client is obtained or
    given up without an exception. *)
Lemma get_gspread_client_settled env :
  Spec.credentials_settled env →
  yields (PlayerSearch.get_gspread_client env) (λ _, True) ∧
  yields (CardTracker.get_gspread_client env) (λ _, True).
Proof.
  intros Hs. split.
  - unfold PlayerSearch.get_gspread_client.
    eapply yields_bind; [by apply use_secrets_settled|].
    intros [] Hb; cbv beta iota.
    + destruct Hb as [creds Hc]; [done|].
      eapply (yields_bind _ _ (λ _, True)).
      * eapply (yields_bind _ _ (λ _, True));
        [exists creds; by rewrite result_call, Hc|].
        intros c _. by apply yields_ret.
      * intros [c|] _; [|by apply yields_ret].
        apply yields_try_except; [done|].
        intros e _. eapply (yields_bind _ _ (λ _, True)); [by apply yields_st_error|].
        intros _ _. by apply yields_ret.
    + eapply (yields_bind _ _ (λ _, True)).
      * apply yields_try_except; [done|].
        intros e _. eapply (yields_bind _ _ (λ _, True)); [by apply yields_st_error|].
        intros _ _. by apply yields_ret.
      * intros [c|] _; [|by apply yields_ret].
        apply yields_try_except; [done|].
        intros e _. eapply (yields_bind _ _ (λ _, True)); [by apply yields_st_error|].
        intros _ _. by apply yields_ret.
  - unfold CardTracker.get_gspread_client.
    eapply yields_bind; [by apply use_secrets_settled|].
    intros [] Hb; cbv beta iota; [|by apply yields_ret].
    destruct Hb as [creds Hc]; [done|].
    eapply (yields_bind _ _ (λ _, True));
        [exists creds; by rewrite result_call, Hc|].
    intros c _. apply yields_try_except; [done|].
    intros e _. eapply (yields_bind _ _ (λ _, True)); [by apply yields_st_error|].
    intros _ _. by apply yields_ret.
Qed.

(** X12. Once the credentials step goes through, each loader returns,
    whatever the service does after it: the normalised table it fetched, or
    the empty table. *)
Lemma loaders_return_when_credentials_settled env key name key' :
  Spec.credentials_settled env →
  yields (PlayerSearch.load_player_data key name env)
         (λ T, T = empty_frame ∨ ∃ fetched, T = PlayerSearch.normalize fetched) ∧
  yields (CardTracker.load_summary_data to_datetime key' env)
         (λ T, T = empty_frame ∨
               ∃ fetched, T = CardTracker.normalize to_datetime fetched).
Proof.
  intros [H1 H2]%get_gspread_client_settled. split.
  - unfold PlayerSearch.load_player_data.
    destruct (truthy key); cbn [negb]; [|apply yields_ret; auto].
    eapply yields_bind; [exact H1|].
    intros [client|] _.
    + apply yields_try_except.
      * intros T HT. right.
        unfold mbind, M_bind, bind, call, result in HT.
        destruct (client key) as [e|sheet]; simpl in HT; [done|].
        destruct (sheet name) as [e|[e|fetched]]; simpl in HT; simplify_eq.
        by exists fetched.
      * intros e _. eapply (yields_bind _ _ (λ _, True)); [by apply yields_st_error|].
        intros _ _. apply yields_ret. auto.
    + eapply (yields_bind _ _ (λ _, True)); [by apply yields_st_error|].
      intros _ _. apply yields_ret. auto.
  - unfold CardTracker.load_summary_data.
    destruct (from_option truthy false key'); cbn [negb];
      [|apply yields_ret; auto].
    eapply yields_bind; [exact H2|].
    intros [client|] _; [|apply yields_ret; auto].
    apply yields_try_except.
    + intros T HT. right.
      unfold mbind, M_bind, bind, call, result in HT.
      destruct (client (default "" key')) as [e|sheet]; simpl in HT; [done|].
      destruct (sheet CardTracker.WORKSHEET_NAME) as [e|[e|fetched]];
        simpl in HT; simplify_eq.
      by exists fetched.
    + intros e _. apply yields_ret. auto.
Qed.

(** Without a key neither loader touches the service: it makes no call at
    all and hands back the empty table. *)
Lemma loaders_without_key env name :
  PlayerSearch.load_player_data "" name env = ([], inr empty_frame) ∧
  CardTracker.load_summary_data to_datetime None env = ([], inr empty_frame) ∧
  CardTracker.load_summary_data to_datetime (Some "") env
    = ([], inr empty_frame).
Proof. done. Qed.

(** C3, as the code has it. After a successful fetch of the table T, the
    search page's loader returns T without the rows that hold no value and
    then without the columns whose name starts with Unnamed, dates left as
    they are; the landing page's loader returns the empty table when T is
    empty, and otherwise all rows of T, cut down to the expected columns
    that T has, in the expected order, with each date cell replaced by what
    the date column reads as at that row: a timestamp, or missing. *)
Theorem loaders_normalization
    (env : Env) (key name : string) (client : Client) (sheet : Spreadsheet)
    (T : DataFrame) :
  truthy key = true → client key = inr sheet → sheet name = inr (inr T) →
  (result (PlayerSearch.get_gspread_client env) = inr (Some client) →
   returns (PlayerSearch.load_player_data key name env)
           (PlayerSearch.normalize T)) ∧
  (name = CardTracker.WORKSHEET_NAME →
   result (CardTracker.get_gspread_client env) = inr (Some client) →
   returns (CardTracker.load_summary_data to_datetime (Some key) env)
           (CardTracker.normalize to_datetime T)) ∧
  header (PlayerSearch.normalize T) =
    filter (λ h, PlayerSearch.unnamed h.1 = false) (header T) ∧
  Forall2 Spec.without_unnamed
          (filter (Spec.has_value T) (rows T))
          (rows (PlayerSearch.normalize T)) ∧
  (is_empty T = true → CardTracker.normalize to_datetime T = empty_frame) ∧
  (is_empty T = false →
   columns (CardTracker.normalize to_datetime T) =
     filter (λ c, c ∈ columns T) CardTracker.COLUMNS ∧
   length (rows (CardTracker.normalize to_datetime T)) = length (rows T) ∧
   ∀ i r', rows (CardTracker.normalize to_datetime T) !! i = Some r' →
           ∃ r, rows T !! i = Some r ∧ Spec.summary_row to_datetime T i r r').
Proof.
  intros Hkey Hclient Hsheet.
  destruct (player_normalize_spec T) as [Hh Hr].
  destruct (summary_normalize_spec T) as [He Hne].
  split_and!; try done.
  - intros Hc. by eapply load_player_data_fetched.
  - intros -> Hc. by eapply load_summary_data_fetched.
Qed.

End Loaders.

(** C3, at the two example sheets, served in good order. *)
Lemma loaders_normalization_witness :
  returns (PlayerSearch.load_player_data "key" "シート1"
             (Examples.serving Examples.player_sheet))
          (PlayerSearch.normalize Examples.player_sheet) ∧
  returns (CardTracker.load_summary_data Examples.iso_date (Some "key")
             (Examples.serving Examples.match_sheet))
          (CardTracker.normalize Examples.iso_date Examples.match_sheet).
Proof.
  split.
  - apply (loaders_normalization Examples.iso_date
             (Examples.serving Examples.player_sheet) "key" "シート1"
             (λ _, inr (λ _, inr (inr Examples.player_sheet)))
             (λ _, inr (inr Examples.player_sheet)) Examples.player_sheet);
      reflexivity.
  - apply (loaders_normalization Examples.iso_date
             (Examples.serving Examples.match_sheet) "key" "シート1"
             (λ _, inr (λ _, inr (inr Examples.match_sheet)))
             (λ _, inr (inr Examples.match_sheet)) Examples.match_sheet);
      reflexivity.
Defined.

(** C3 as the claim has it fails, on sheets without an empty line. The
    landing page's loader returns a row without any value: the second line
    of the match sheet, whose only value stood under a column that is not
    kept.  The search page's loader leaves the unreadable date of the player
    sheet as text, and the line that lost its only value with the unnamed
    column comes back without any value. *)
Lemma loaders_keep_blank_rows_and_dates :
  Forall (λ r : row, r ≠ ∅) (rows Examples.match_sheet) ∧
  Forall (λ r : row, r ≠ ∅) (rows Examples.player_sheet) ∧
  (∃ T, returns (CardTracker.load_summary_data Examples.iso_date (Some "key")
                   (Examples.serving Examples.match_sheet)) T ∧
        columns T = ["season"; "date"; "result"] ∧
        rows T =
          [ {["season" := SStr "S1";
              "date" := STs (mkTimestamp 2025 4 1 0 0 0);
              "result" := SStr "勝ち"]};
            ∅;
            {["season" := SStr "S1"; "result" := SStr "負け"]};
            {["season" := SStr "S1"; "result" := SStr "引き分け"]} ]) ∧
  (∃ T, returns (PlayerSearch.load_player_data "key" "シート1"
                   (Examples.serving Examples.player_sheet)) T ∧
        header T = [("name", Dobject); ("date", Dobject)] ∧
        rows T = [Examples.player; ∅]) ∧
  Examples.player !! "date" = Some (SStr "someday").
Proof.
  split_and!.
  - repeat constructor; by apply (bool_decide_unpack _).
  - repeat constructor; by apply (bool_decide_unpack _).
  - eexists. split; [reflexivity|]. split; vm_compute; reflexivity.
  - eexists. split; [reflexivity|]. split; vm_compute; reflexivity.
  - vm_compute. reflexivity.
Qed.

(** * The loaders and the credentials held in the secrets *)

(** C7. When the secrets hold a service account entry from which no
    credentials can be built, both loaders let the exception of
    [Credentials.from_service_account_info] out instead of returning the
    empty table, before any fetch; the same failure of the credential file
    is caught by the search page's loader, which returns the empty table. *)
Theorem loaders_raise_on_malformed_secrets :
  PlayerSearch.load_player_data "key" "シート1"
    (Examples.malformed_secrets Examples.player_sheet)
  = ([SecretsLookup "gcp_service_account"; ServiceAccountInfo],
     inl (OtherException "ValueError")) ∧
  CardTracker.load_summary_data Examples.iso_date (Some "key")
    (Examples.malformed_secrets Examples.match_sheet)
  = ([SecretsLookup "gcp_service_account"; ServiceAccountInfo],
     inl (OtherException "ValueError")) ∧
  raises (PlayerSearch.load_player_data "key" "シート1"
            (Examples.malformed_secrets Examples.player_sheet)) ∧
  raises (CardTracker.load_summary_data Examples.iso_date (Some "key")
            (Examples.malformed_secrets Examples.match_sheet)) ∧
  returns (PlayerSearch.load_player_data "key" "シート1"
             (mkEnv false (λ _, inr false) (inl (OtherException "ValueError"))
                    (λ _, inl (OtherException "FileNotFoundError"))
                    (λ _, inl (OtherException "TransportError"))))
          empty_frame.
Proof.
  split_and!; try reflexivity; eexists; reflexivity.
Qed.

(** * The export read back *)

Section ReadBack.
Import PlayerSearch Reader.

Lemma existsb_cons_false {A} (f : A → bool) x l :
  existsb f (x :: l) = false → f x = false ∧ existsb f l = false.
Proof. simpl. by intros [? ?]%orb_false_iff. Qed.

Lemma needs_quotes_cons c f :
  needs_quotes (String c f) = false →
  Ascii.eqb c newline = false ∧ Ascii.eqb c "," = false ∧
  Ascii.eqb c dquote = false ∧ needs_quotes f = false.
Proof.
  unfold needs_quotes. simpl. intros [Hc Hf]%orb_false_iff.
  apply bool_decide_eq_false in Hc.
  split_and!; [..|done]; apply Ascii.eqb_neq; intros ->; apply Hc;
    set_solver.
Qed.

(** A run of characters that need no quotes extends an unquoted field. *)
Lemma read_unquoted_run f field record done rest :
  needs_quotes f = false →
  read Unquoted field record done (f +:+ rest) =
  read Unquoted (field +:+ f) record done rest.
Proof.
  revert field. induction f as [|c f IH]; intros field Hf; simpl.
  - by rewrite str_app_nil_r.
  - apply needs_quotes_cons in Hf as (-> & -> & _ & Hf).
    rewrite IH by done. by rewrite str_app_assoc.
Qed.

(** The inside of a quoted field, up to its closing quote. *)
Lemma read_quoted_run f field record done rest :
  read Quoted field record done (double_quotes f +:+ String dquote rest) =
  read QuoteInQuoted (field +:+ f) record done rest.
Proof.
  revert field. induction f as [|c f IH]; intros field; simpl.
  - by rewrite str_app_nil_r.
  - destruct (Ascii.eqb c dquote) eqn:Hc; simpl.
    + apply Ascii.eqb_eq in Hc as ->. simpl.
      rewrite IH. by rewrite str_app_assoc.
    + rewrite Hc, IH. by rewrite str_app_assoc.
Qed.

(** One written field and the character that ends it. *)
Lemma read_field f record done rest (last : bool) :
  ¬ (record = [] ∧ f = "" ∧ last = true) →
  read (field_start record) "" record done
       (csv_field f +:+ String (if last then newline else ",") rest) =
  if last then read RecordStart "" [] (done ++ [record ++ [f]]) rest
  else read FieldStart "" (record ++ [f]) done rest.
Proof.
  intros Hnot. unfold csv_field.
  destruct (needs_quotes f) eqn:Hq.
  - rewrite !str_app_assoc.
    assert (read (field_start record) "" record done
              (str1 dquote +:+ double_quotes f +:+ str1 dquote +:+
               String (if last then newline else ",") rest) =
            read Quoted "" record done
              (double_quotes f +:+
               String dquote (String (if last then newline else ",") rest)))
      as ->.
    { by destruct record. }
    rewrite read_quoted_run. simpl. by destruct last.
  - destruct f as [|c f].
    + destruct record as [|r record], last; simpl; try done.
      by destruct Hnot.
    + apply needs_quotes_cons in Hq as (Hn & Hc & Hd & Hq).
      assert (read (field_start record) "" record done
                (String c f +:+ String (if last then newline else ",") rest) =
              read Unquoted (str1 c) record done
                (f +:+ String (if last then newline else ",") rest)) as ->.
      { destruct record; simpl; by rewrite Hn, Hc, Hd. }
      rewrite read_unquoted_run by done. simpl. by destruct last.
Qed.

(** The fields of one record, after the fields read so far. *)
Lemma read_fields fields record done rest :
  fields ≠ [] → ¬ (record = [] ∧ fields = [""]) →
  read (field_start record) "" record done
       (join "," (csv_field <$> fields) +:+ String newline rest) =
  read RecordStart "" [] (done ++ [record ++ fields]) rest.
Proof.
  revert record. induction fields as [|f fields IH]; intros record Hne Hnot;
    [done|].
  destruct fields as [|g fields].
  - simpl. apply (read_field f record done rest true).
    intros (-> & -> & _). by apply Hnot.
  - change (join "," (csv_field <$> f :: g :: fields))
      with (csv_field f +:+ "," +:+ join "," (csv_field <$> g :: fields)).
    rewrite (str_app_sep _ _ _ ",").
    rewrite (read_field f record done _ false) by (by intros (_ & _ & ?)).
    assert (FieldStart = field_start (record ++ [f])) as ->
      by (by destruct record).
    rewrite IH; [by rewrite <-(assoc_L (++))|done|].
    intros [Hr _]. by destruct record.
Qed.

(** One written record. *)
Lemma read_record fields done rest :
  read RecordStart "" [] done (csv_record fields +:+ rest) =
  read RecordStart "" [] (done ++ [fields]) rest.
Proof.
  unfold csv_record. rewrite str_app_end.
  destruct fields as [|f fields]; [done|].
  destruct (decide (f :: fields = [""])) as [Heq|Hne].
  - injection Heq as -> ->. simpl. reflexivity.
  - assert (match f :: fields with
            | [""] => str1 dquote +:+ str1 dquote
            | _ => join "," (csv_field <$> f :: fields)
            end = join "," (csv_field <$> f :: fields)) as ->.
    { destruct f, fields; try done. }
    apply (read_fields (f :: fields) [] done rest); [done|].
    by intros [_ ?].
Qed.

(** The written rows, after the records read so far. *)
Lemma read_rows cols (rs : list row) done :
  read RecordStart "" [] done
       (foldr (λ r rest, csv_row cols r +:+ rest) "" rs) =
  done ++ ((λ r : row, (λ c, csv_cell (r !! c)) <$> cols) <$> rs).
Proof.
  revert done. induction rs as [|r rs IH]; intros done; simpl.
  - by rewrite app_nil_r.
  - unfold csv_row at 1. rewrite read_record, IH.
    by rewrite <-(assoc_L (++)).
Qed.

(** The text [to_csv] writes for a frame splits back into the column names
    followed by the text of the cells, row by row. *)
Lemma read_csv_to_csv (d : DataFrame) :
  read_csv (to_csv d) = records d.
Proof.
  unfold read_csv, to_csv, records. by rewrite read_record, read_rows.
Qed.

(** X7. The text [to_csv] writes tells the column names and the text of
    every cell, row by row: two frames with the same export text have the
    same names and the same cell texts, whatever commas, quotes or line
    breaks the names and cells hold. *)
Theorem to_csv_determines_records (d1 d2 : DataFrame) :
  to_csv d1 = to_csv d2 → records d1 = records d2.
Proof.
  intros Heq. rewrite <-(read_csv_to_csv d1), <-(read_csv_to_csv d2).
  by rewrite Heq.
Qed.

End ReadBack.

(** * Further properties of the search page *)

Section SearchPage.
Import PlayerSearch Spec.

Variable engine : regex_engine.

#[local] Instance str_le_total : Total str_le.
Proof. intros a b. apply String.leb_total. Qed.

Lemma sublist_unique l : unique l `sublist_of` l.
Proof.
  induction l as [|x l IH]; simpl; [constructor|].
  apply sublist_skip. etrans; [apply sublist_filter|done].
Qed.

Lemma length_unique l : (length (unique l) ≤ length l)%nat.
Proof. apply sublist_length, sublist_unique. Qed.

Lemma length_dropna s : (length (dropna s) ≤ length s)%nat.
Proof.
  unfold dropna. induction s as [|[v|] s IH]; csimpl; lia.
Qed.

(** The options of a facet: sorted, and the texts of the values found in
    the column, no others. *)
Lemma facet_options_spec T col :
  Sorted str_le (facet_options T col) ∧
  ∀ text, text ∈ facet_options T col ↔
          ∃ v, Some v ∈ column T col ∧ text = astype_str (Some v).
Proof.
  unfold facet_options. split; [apply Sorted_merge_sort, _|].
  intros text. rewrite merge_sort_Permutation, list_elem_of_fmap.
  unfold unique_values. split.
  - intros (v & -> & Hv). exists v.
    by rewrite elem_of_unique, elem_of_dropna in Hv.
  - intros (v & Hv & ->). exists v.
    by rewrite elem_of_unique, elem_of_dropna.
Qed.

(** X1. The facets of the column mode are those of the loaded table,
    whatever is selected in them: selecting values never removes a facet or
    an option.  Each facet's key is [filter_] followed by its column, its
    options are sorted, and they are exactly the texts of the values found
    in the column of the loaded table. *)
Theorem facets_of_loaded_table (inp : ui_input) (T : DataFrame) :
  method inp = ColumnFilter →
  ∃ l, filter_rows engine inp T = inr l ∧
       sidebar l =
         (λ col, mkMultiselect col (facet_options T col) ("filter_" +:+ col))
           <$> filter (λ col, facet_offered T col = true) (columns T) ∧
       (∀ inp' l', method inp' = ColumnFilter →
                   filter_rows engine inp' T = inr l' →
                   sidebar l' = sidebar l) ∧
       ∀ w, w ∈ sidebar l →
            ms_key w = "filter_" +:+ ms_label w ∧
            Sorted str_le (ms_options w) ∧
            ∀ text, text ∈ ms_options w ↔
                    ∃ v, Some v ∈ column T (ms_label w) ∧
                         text = astype_str (Some v).
Proof.
  intros Hm. unfold filter_rows. rewrite Hm. eexists. split; [done|].
  pose proof (column_loop_spec (selected inp) (columns T) (mkLocals T T []))
    as (_ & _ & _ & Hside).
  simpl in Hside. unfold column_filter. simpl. rewrite Hside. split_and!.
  - done.
  - intros inp' l' Hm' Hl'. rewrite Hm' in Hl'. injection Hl' as <-.
    pose proof (column_loop_spec (selected inp') (columns T)
                  (mkLocals T T [])) as (_ & _ & _ & Hside').
    simpl in Hside'. unfold column_filter. simpl. by rewrite Hside'.
  - intros w (col & -> & _)%list_elem_of_fmap. simpl.
    split; [done|]. apply facet_options_spec.
Qed.

Lemma filter_narrower {A} (P Q : A → Prop) `{!∀ x, Decision (P x)}
    `{!∀ x, Decision (Q x)} (l : list A) :
  (∀ x, P x → Q x) → filter P l `sublist_of` filter Q l.
Proof.
  intros HPQ. assert (filter P l = filter P (filter Q l)) as ->.
  { rewrite list_filter_filter. apply list_filter_iff. intros x.
    split; [auto|tauto]. }
  apply sublist_filter.
Qed.

(** X2. Widening a selection never loses a row: when each offered facet is
    either left without a selection or given every value it had before and
    more, the rows found before are a subsequence of the rows found now. *)
Theorem wider_selection_keeps_rows (inp inp' : ui_input) (T : DataFrame) :
  method inp = ColumnFilter → method inp' = ColumnFilter →
  (∀ col, facet_offered T col = true →
          selected inp' col = [] ∨
          selected inp col ≠ [] ∧ selected inp col ⊆ selected inp' col) →
  ∃ l l', filter_rows engine inp T = inr l ∧
          filter_rows engine inp' T = inr l' ∧
          rows (filtered_df l) `sublist_of` rows (filtered_df l').
Proof.
  intros Hm Hm' Hwider. unfold filter_rows. rewrite Hm, Hm'.
  eexists _, _. split_and!; [done..|].
  destruct (column_filter_spec (selected inp) T) as (_ & _ & -> & _).
  destruct (column_filter_spec (selected inp') T) as (_ & _ & -> & _).
  apply filter_narrower. intros r. unfold passes_facets.
  intros Hall. eapply Forall_impl; [exact Hall|].
  intros col Hacc Hoff Hsel'.
  destruct (Hwider col Hoff) as [Hnil|[Hsel Hsub]]; [done|].
  apply Hsub, Hacc; done.
Qed.

(** X4. The counts of the page: the number of loaded rows is that of the
    table and at least one, the number found is at most the number loaded,
    the column list has one line per column in the order of the table, and
    a table shown has as many rows as were found, at least one, under the
    chosen columns in the order they were chosen. *)
Theorem page_counts (inp : ui_input) (T : DataFrame) (p : page) :
  main engine inp T = inr (Page p) →
  pg_loaded p = len T ∧ (1 ≤ pg_loaded p)%nat ∧
  (pg_found p ≤ pg_loaded p)%nat ∧
  ci_name <$> pg_col_info p = columns T ∧
  ∀ table export stats,
    pg_results p = Shown table export stats →
    len table = pg_found p ∧ (1 ≤ pg_found p)%nat ∧
    columns table = filter (λ c, c ∈ columns T) (display_columns inp).
Proof.
  intros (HT & l & Hl & Hdf & Hhd & ->)%main_page. simpl.
  pose proof (filter_rows_outcome engine inp T) as Hout.
  rewrite Hl in Hout. destruct Hout as (_ & _ & Hsub).
  apply is_empty_false in HT as [HhT HrT].
  split_and!.
  - done.
  - unfold len. destruct (rows T); [done|simpl; lia].
  - by apply sublist_length.
  - unfold col_info, columns. rewrite <-list_fmap_compose.
    by apply list_fmap_ext.
  - intros table export stats. unfold results_area.
    destruct (is_empty (filtered_df l)) eqn:Hemp; simpl; [done|].
    destruct (display_columns inp) as [|c cs] eqn:Hdisp; [done|].
    intros [= <- _ _]. apply is_empty_false in Hemp as [_ Hrows].
    split_and!.
    + unfold len, select_columns. simpl. by rewrite length_fmap.
    + unfold len. destruct (rows (filtered_df l)); [done|simpl; lia].
    + rewrite select_columns_columns. unfold columns. by rewrite Hhd.
Qed.


(** X6. The column list of the data set: for each column the number of
    distinct values is at most the number of non-missing cells, which is at
    most the number of rows, and the one is zero exactly when the other
    is. *)
Theorem col_info_counts (T : DataFrame) :
  Forall (λ ci, (ci_unique ci ≤ ci_non_missing ci ≤ len T)%nat ∧
                (ci_unique ci = 0%nat ↔ ci_non_missing ci = 0%nat))
         (col_info T).
Proof.
  unfold col_info. apply Forall_fmap, Forall_forall. intros h _. simpl.
  unfold nunique, count, len.
  pose proof (length_unique (dropna (column T h.1))) as Hu.
  pose proof (length_dropna (column T h.1)) as Hd.
  unfold column in Hd at 2. rewrite length_fmap in Hd.
  split; [lia|].
  destruct (dropna (column T h.1)) as [|v vs]; simpl; [done|]. split; lia.
Qed.

End SearchPage.

(** * Further properties of the loaders and of the quick statistics *)

Section Outcomes.

Variable to_datetime : list (option scalar) → list (option Timestamp).

Ltac run_oracles sc file auth key name :=
  repeat (simpl;
    match goal with
    | |- context [sc ?k] => destruct (sc k) as [[|?]|[|]] eqn:?
    | |- context [file ?q] => destruct (file q) as [?|?] eqn:?
    | |- context [auth ?c] => destruct (auth c) as [?|?] eqn:?
    | |- context [?c key] => destruct (c key) as [?|?] eqn:?
    | |- context [?sh name] => destruct (sh name) as [?|[?|?]] eqn:?
    end).

Ltac not_in_trace :=
  let H := fresh in
  intros ? ? H;
  repeat (apply elem_of_cons in H as [H|H]; [discriminate H|]);
  by apply elem_of_nil in H.

Ltac in_trace :=
  eexists _, _;
  repeat first [ by apply list_elem_of_here | apply list_elem_of_further ].

(** X8. The search page's loader tells the user whenever it comes back
    without a table from the sheet: called with a key, it either returns the
    normalised table that the worksheet gave and has reported no error, or
    returns the empty table and has reported an error with [st.error]. *)
Theorem load_player_data_reports
    (env : Env) (key name : string) (T : DataFrame) :
  truthy key = true →
  returns (PlayerSearch.load_player_data key name env) T →
  (∃ fetched, T = PlayerSearch.normalize fetched ∧
     GetAsDataframe ∈ trace (PlayerSearch.load_player_data key name env) ∧
     ∀ msg cause,
       StError msg cause ∉ trace (PlayerSearch.load_player_data key name env)) ∨
  (T = empty_frame ∧
   ∃ msg cause,
     StError msg cause ∈ trace (PlayerSearch.load_player_data key name env)).
Proof.
  intros Hkey. unfold returns, result, trace.
  unfold PlayerSearch.load_player_data, PlayerSearch.get_gspread_client.
  rewrite Hkey. destruct env as [hs sc info file auth].
  unfold mbind, M_bind, bind, try_except, call, st_error, mret, M_ret, ret,
    raise.
  destruct hs, info as [?|?]; run_oracles sc file auth key name;
    try discriminate; intros [= <-];
    first [ right; split; [reflexivity|in_trace]
          | left; eexists; split; [reflexivity|];
            split; [repeat first [ by apply list_elem_of_here
                                 | apply list_elem_of_further ]
                   | not_in_trace ] ].
Qed.

(** X9. The quick statistics block never lets an exception out, whatever
    the service does.  When it shows the metrics, the table has at least one
    match, and the wins and the seasons, where shown, are at most the number
    of matches: the division by the number of matches is never by zero. *)
Theorem quick_statistics_settles (SPREADSHEET_ID : option string) (env : Env) :
  yields (CardTracker.quick_statistics to_datetime SPREADSHEET_ID env)
    (λ s, match s with
          | CardTracker.Metrics q =>
              ∃ n, CardTracker.total_matches q = CardTracker.Number n ∧
                   (1 ≤ n)%nat ∧
                   (CardTracker.win_count q = CardTracker.Label "N/A" ∨
                    ∃ w, CardTracker.win_count q = CardTracker.Number w ∧
                         (w ≤ n)%nat) ∧
                   (CardTracker.season_count q = CardTracker.Label "N/A" ∨
                    ∃ k, CardTracker.season_count q = CardTracker.Number k ∧
                         (k ≤ n)%nat)
          | _ => True
          end).
Proof.
  unfold CardTracker.quick_statistics. apply yields_try_except.
  - intros s Hs. unfold mbind, M_bind, bind, result in Hs.
    destruct (CardTracker.load_summary_data _ _ _) as [tr [e|T]];
      simpl in Hs; [done|]. injection Hs as <-.
    destruct (is_empty T) eqn:Hemp; simpl; [done|].
    apply is_empty_false in Hemp as [_ Hrows].
    exists (len T). split_and!.
    + done.
    + unfold len. destruct (rows T); [done|simpl; lia].
    + destruct (has_column "result" T); [right|by left].
      eexists. split; [done|]. apply wins_le_len.
    + destruct (has_column "season" T); [right|by left].
      eexists. split; [done|]. unfold nunique, len.
      pose proof (length_unique (dropna (column T "season"))).
      pose proof (length_dropna (column T "season")) as Hd.
      unfold column in Hd at 2. rewrite length_fmap in Hd. lia.
  - intros e _. by apply yields_ret.
Qed.

(** X10. The table the landing page's loader makes of a fetched table with
    rows and columns: its columns are expected columns in the expected
    order, it has as many rows as were fetched, no cell lies outside its
    columns, and a date cell is a timestamp or missing, never text. *)
Theorem summary_table_shape (T : DataFrame) :
  is_empty T = false →
  columns (CardTracker.normalize to_datetime T)
    `sublist_of` CardTracker.COLUMNS ∧
  len (CardTracker.normalize to_datetime T) = len T ∧
  ∀ r : row, r ∈ rows (CardTracker.normalize to_datetime T) →
    (∀ c, c ∉ columns (CardTracker.normalize to_datetime T) → r !! c = None) ∧
    (r !! "date" = None ∨ ∃ t, r !! "date" = Some (STs t)).
Proof.
  intros Hemp.
  destruct (summary_normalize_spec to_datetime T) as [_ Hspec].
  destruct (Hspec Hemp) as (Hcols & Hlen & Hrows). split_and!.
  - rewrite Hcols. apply sublist_filter.
  - done.
  - intros r' Hr'.
    destruct (proj1 (list_elem_of_lookup _ _) Hr') as [i Hi].
    destruct (Hrows i r' Hi) as (r & _ & Hrow).
    unfold Spec.summary_row in Hrow. split.
    + intros c Hc. rewrite Hrow. rewrite decide_False; [done|].
      intros Hin. apply Hc. rewrite Hcols. apply list_elem_of_filter. tauto.
    + rewrite Hrow. destruct (decide _); [|by left].
      simpl.
      destruct (to_datetime (column T "date") !! i) as [[t|]|]; simpl;
        [right; by exists t|by left|by left].
Qed.

(** X11. The win rate label is the exact win ratio, the number of won
    matches over the number of matches times 100, to one decimal: the number
    it shows lies within a twentieth of the exact ratio, up to the rounding
    of the two binary64 operations, which is less than 2^-43. *)
Theorem win_rate_label_accuracy (T : DataFrame) :
  has_column "result" T = true → len T ≠ 0%nat →
  ∃ tenths : Z,
    CardTracker.win_rate_label (CardTracker.metrics T) =
      CardTracker.Label
        (pretty (tenths / 10)%Z +:+ "." +:+ pretty (tenths mod 10)%Z +:+ "%") ∧
    (Qabs ((tenths # 10)
           - (Z.of_nat (CardTracker.wins T) # Pos.of_nat (len T)) * 100)
     <= (1 # 20) + (1 # 2 ^ 43))%Q.
Proof.
  intros Hres Hlen.
  destruct (win_rate_bounds T) as [Hlo Hhi].
  destruct (format_1f_tenths _ Hlo Hhi) as (t & _ & Hfmt & Hnear & _).
  exists t. split.
  { unfold CardTracker.metrics. rewrite Hres. simpl. rewrite Hfmt.
    by rewrite !str_app_assoc. }
  pose proof (wins_le_len T) as Hle.
  assert (CardTracker.win_rate T =
          SFmul 53 1024 (CardTracker.true_divide (CardTracker.wins T) (len T))
                CardTracker.hundred) as Hrate.
  { unfold CardTracker.win_rate. by destruct (len T). }
  rewrite Hrate in Hnear.
  pose proof (true_divide_near (CardTracker.wins T) (len T) Hle ltac:(lia))
    as Hdiv.
  pose proof (mul_hundred_near _
                (true_divide_within (CardTracker.wins T) (len T) Hle
                   ltac:(lia))) as Hmul.
  set (v := CardTracker.binary64_value (SFmul _ _ _ _)) in *.
  set (q := CardTracker.binary64_value (CardTracker.true_divide _ _)) in *.
  set (r := Z.of_nat (CardTracker.wins T) # Pos.of_nat (len T)) in *.
  clearbody v q r.
  assert (t # 10 == inject_Z t * (1 # 10))%Q as ->
    by (unfold Qeq; simpl; lia).
  apply Qabs_Qle_condition in Hnear, Hdiv, Hmul. apply Qabs_Qle_condition.
  change (2 ^ 43)%positive with 8796093022208%positive.
  change (2 ^ 45)%positive with 35184372088832%positive in Hmul.
  change (2 ^ 52)%positive with 4503599627370496%positive in Hdiv.
  split; lra.
Qed.

(** X13. The table the search page's loader makes of a fetched table keeps
    the order and the storage types of the columns it keeps, none of which
    has a name starting with Unnamed, adds no row, and leaves no cell under
    a dropped column. *)
Theorem player_table_shape (T : DataFrame) :
  header (PlayerSearch.normalize T) `sublist_of` header T ∧
  Forall (λ c, PlayerSearch.unnamed c = false)
         (columns (PlayerSearch.normalize T)) ∧
  (len (PlayerSearch.normalize T) ≤ len T)%nat ∧
  ∀ (r : row) c, r ∈ rows (PlayerSearch.normalize T) →
                 PlayerSearch.unnamed c = true → r !! c = None.
Proof.
  destruct (player_normalize_spec T) as [Hh Hr]. split_and!.
  - rewrite Hh. apply sublist_filter.
  - unfold columns. rewrite Hh. apply Forall_fmap, Forall_forall.
    by intros h [? _]%list_elem_of_filter.
  - unfold len. rewrite <-(Forall2_length _ _ _ Hr). apply length_filter.
  - intros r' c Hr' Hc.
    destruct (proj1 (list_elem_of_lookup _ _) Hr') as [i Hi].
    destruct (Forall2_lookup_r _ _ _ _ _ Hr Hi) as (r & _ & Hrow).
    rewrite (Hrow c). by rewrite Hc.
Qed.

(** X14. The landing page takes its credentials from the secrets only: when
    the secrets are absent or hold no service account, its loader returns
    the empty table without reading a credential file and without any call
    to the spreadsheet service, whatever key is configured. *)
Theorem load_summary_data_needs_secrets
    (SPREADSHEET_ID : option string) (env : Env) :
  has_secrets env = false ∨
  secrets_contains env "gcp_service_account" = inr false →
  returns (CardTracker.load_summary_data to_datetime SPREADSHEET_ID env)
          empty_frame ∧
  ∀ ev, ev ∈ trace (CardTracker.load_summary_data to_datetime
                      SPREADSHEET_ID env) →
        is_fetch ev = false ∧ ∀ path, ev ≠ ServiceAccountFile path.
Proof.
  unfold returns, result, trace, CardTracker.load_summary_data,
    CardTracker.get_gspread_client.
  destruct (from_option truthy false SPREADSHEET_ID); simpl;
    [|intros _; split; [done|by intros ev ?%elem_of_nil]].
  unfold mbind, M_bind, bind, try_except, call, mret, M_ret, ret.
  intros [->| ->]; [|destruct (has_secrets env)]; simpl;
    (split; [done|]); intros ev Hev;
    repeat (apply elem_of_cons in Hev as [->|Hev]; [by split|]);
    by apply elem_of_nil in Hev.
Qed.

End Outcomes.

(** X1, at the deck table with Red selected. *)
Lemma facets_of_loaded_table_witness :
  ∃ l, PlayerSearch.filter_rows PlainRe.engine
         (Examples.by_columns Examples.select_red ["deck"]) Examples.decks
       = inr l ∧
       PlayerSearch.sidebar l =
         [PlayerSearch.mkMultiselect "deck" ["Blue"; "Red"] "filter_deck"].
Proof.
  destruct (facets_of_loaded_table PlainRe.engine
              (Examples.by_columns Examples.select_red ["deck"])
              Examples.decks eq_refl) as (l & Hl & Hside & _).
  exists l. split; [exact Hl|]. rewrite Hside. vm_compute. reflexivity.
Defined.

(** X2, at the deck table: from Red selected to nothing selected. *)
Lemma wider_selection_keeps_rows_witness :
  ∃ l l',
    PlayerSearch.filter_rows PlainRe.engine
      (Examples.by_columns Examples.select_red ["deck"]) Examples.decks
    = inr l ∧
    PlayerSearch.filter_rows PlainRe.engine
      (Examples.by_columns Examples.no_selection ["deck"]) Examples.decks
    = inr l' ∧
    rows (PlayerSearch.filtered_df l)
      `sublist_of` rows (PlayerSearch.filtered_df l').
Proof.
  apply (wider_selection_keeps_rows PlainRe.engine
           (Examples.by_columns Examples.select_red ["deck"])
           (Examples.by_columns Examples.no_selection ["deck"])
           Examples.decks);
    [reflexivity|reflexivity|].
  intros col _. left. reflexivity.
Defined.

(** X4, at the deck table with Red selected and the deck column shown. *)
Lemma page_counts_witness :
  ∃ p, PlayerSearch.main PlainRe.engine
         (Examples.by_columns Examples.select_red ["deck"]) Examples.decks
       = inr (PlayerSearch.Page p) ∧
       PlayerSearch.pg_loaded p = len Examples.decks ∧
       (PlayerSearch.pg_found p ≤ PlayerSearch.pg_loaded p)%nat.
Proof.
  eexists. split; [reflexivity|].
  destruct (page_counts PlainRe.engine
              (Examples.by_columns Examples.select_red ["deck"])
              Examples.decks _ eq_refl) as (H1 & _ & H3 & _).
  split; [exact H1|exact H3].
Defined.


(** X7, at the deck table and the same table with another storage type. *)
Lemma to_csv_determines_records_witness :
  Reader.records Examples.decks =
  Reader.records
    (mkDataFrame [("deck", Dint64)] [Examples.red; Examples.blue; Examples.red]).
Proof.
  apply (to_csv_determines_records Examples.decks
           (mkDataFrame [("deck", Dint64)]
                        [Examples.red; Examples.blue; Examples.red])).
  reflexivity.
Defined.

(** X8, at the player sheet served in good order. *)
Lemma load_player_data_reports_witness :
  (∃ fetched,
     PlayerSearch.normalize Examples.player_sheet
       = PlayerSearch.normalize fetched ∧
     GetAsDataframe ∈
       trace (PlayerSearch.load_player_data "key" "シート1"
                (Examples.serving Examples.player_sheet)) ∧
     ∀ msg cause,
       StError msg cause ∉
         trace (PlayerSearch.load_player_data "key" "シート1"
                  (Examples.serving Examples.player_sheet))) ∨
  (PlayerSearch.normalize Examples.player_sheet = empty_frame ∧
   ∃ msg cause,
     StError msg cause ∈
       trace (PlayerSearch.load_player_data "key" "シート1"
                (Examples.serving Examples.player_sheet))).
Proof.
  apply (load_player_data_reports (Examples.serving Examples.player_sheet)
           "key" "シート1" (PlayerSearch.normalize Examples.player_sheet));
    reflexivity.
Defined.

(** X10, at the match sheet. *)
Lemma summary_table_shape_witness :
  columns (CardTracker.normalize Examples.iso_date Examples.match_sheet)
    `sublist_of` CardTracker.COLUMNS ∧
  len (CardTracker.normalize Examples.iso_date Examples.match_sheet)
    = len Examples.match_sheet.
Proof.
  destruct (summary_table_shape Examples.iso_date Examples.match_sheet eq_refl)
    as (H1 & H2 & _).
  split; [exact H1|exact H2].
Defined.

(** X11, at the three matches won, lost, won. *)
Lemma win_rate_label_accuracy_witness :
  ∃ tenths : Z,
    CardTracker.win_rate_label (CardTracker.metrics Examples.matches) =
      CardTracker.Label
        (pretty (tenths / 10)%Z +:+ "." +:+ pretty (tenths mod 10)%Z +:+ "%") ∧
    (Qabs ((tenths # 10)
           - (Z.of_nat (CardTracker.wins Examples.matches)
              # Pos.of_nat (len Examples.matches)) * 100)
     <= (1 # 20) + (1 # 2 ^ 43))%Q.
Proof.
  apply (win_rate_label_accuracy Examples.matches);
    [reflexivity|discriminate].
Defined.

(** X12, at the player sheet served in good order. *)
Lemma loaders_return_when_credentials_settled_witness :
  yields (PlayerSearch.load_player_data "key" "シート1"
            (Examples.serving Examples.player_sheet))
         (λ T, T = empty_frame ∨
               ∃ fetched, T = PlayerSearch.normalize fetched) ∧
  yields (CardTracker.load_summary_data Examples.iso_date (Some "key")
            (Examples.serving Examples.player_sheet))
         (λ T, T = empty_frame ∨
               ∃ fetched, T = CardTracker.normalize Examples.iso_date fetched).
Proof.
  apply (loaders_return_when_credentials_settled Examples.iso_date
           (Examples.serving Examples.player_sheet) "key" "シート1"
           (Some "key")).
  right. right. right. split; [reflexivity|]. eexists. reflexivity.
Defined.

(** X14, at a service whose secrets hold no service account while the
    credential file is in good order. *)
Lemma load_summary_data_needs_secrets_witness :
  returns (CardTracker.load_summary_data Examples.iso_date (Some "key")
             (mkEnv true (λ _, inr false)
                    (inl (OtherException "KeyError"))
                    (λ _, inr Examples.account)
                    (λ _, inr (λ _, inr (λ _, inr (inr Examples.match_sheet))))))
          empty_frame.
Proof.
  apply (load_summary_data_needs_secrets Examples.iso_date (Some "key")
           (mkEnv true (λ _, inr false)
                  (inl (OtherException "KeyError"))
                  (λ _, inr Examples.account)
                  (λ _, inr (λ _, inr (λ _, inr (inr Examples.match_sheet)))))).
  right. reflexivity.
Defined.
